(** * sggmm: the Supergiant Games Mod Manager command line (src/sggmm/cli.py)

    A shallow embedding of [cli.py] and the properties of it that the
    specification states.

    Conventions of the embedding.
    - A Python [str] is a [list ascii]; a character stands for the code
      point of the same number, so the texts covered are those over the
      code points 0..255.  [isspace], [is_linebreak] and [lower_char] are
      Python's [str.isspace], the line boundaries of [str.splitlines] and
      [str.lower] on that range.
    - A [pathlib.Path] is an absolute, normalised path: the list of its
      components from the root.  There are no symbolic or hard links, so
      [Path.resolve] is the identity.
    - The file system is a finite map from paths to nodes, meant to be
      tree-shaped: what is present has its parent present as a directory.
      The results that depend on it say so in their hypotheses.  Every
      function that touches the file system, logs, echoes or prompts runs in
      the monad [M], which threads the [world] and carries Python exceptions
      as [Raise]. *)

From Stdlib Require Import Ascii String List ZArith Lia Bool.
From stdpp Require Import base option list strings gmap fin_maps.
Import ListNotations.

Local Open Scope list_scope.

(** ** Texts *)

Definition text := list ascii.

Definition txt (s : string) : text := list_ascii_of_string s.

Definition LF : ascii := "010"%char.
Definition DQ : ascii := "034"%char.

Definition code (c : ascii) : N := N_of_ascii c.

(** [str.isspace] of one character, and the class [\s] of [re] for a [str]
    pattern: 0x09-0x0D, 0x1C-0x1F, 0x20, 0x85, 0xA0. *)
Definition isspace (c : ascii) : bool :=
  let n := code c in
  ((9 <=? n) && (n <=? 13) || (28 <=? n) && (n <=? 32)
   || (n =? 133) || (n =? 160))%N.

(** The characters at which [str.splitlines] breaks a line:
    \n \v \f \r, 0x1C-0x1E, 0x85. *)
Definition is_linebreak (c : ascii) : bool :=
  let n := code c in
  ((10 <=? n) && (n <=? 13) || (28 <=? n) && (n <=? 30) || (n =? 133))%N.

(** [str.lower] of one character: A-Z, and 0xC0-0xDE without 0xD7. *)
Definition lower_char (c : ascii) : ascii :=
  let n := code c in
  if ((65 <=? n) && (n <=? 90)
      || (192 <=? n) && (n <=? 222) && negb (n =? 215))%N
  then ascii_of_N (n + 32) else c.

Definition lower (s : text) : text := map lower_char s.

Definition text_eqb (a b : text) : bool := bool_decide (a = b).

(** ** The substitution pattern [REGEX_SUBSTITUTION]

    The syntax of the part of [re] that the pattern uses. *)

Inductive regex : Type :=
| Lit (c : ascii)          (* a literal character *)
| Dot                      (* .   any character but \n *)
| Space                    (* \s *)
| Bol                      (* ^   under re.MULTILINE *)
| Eol                      (* $   under re.MULTILINE *)
| Seq (r1 r2 : regex)
| Alt (r1 r2 : regex)      (* r1|r2, r1 tried first *)
| Opt (r : regex)          (* r?  greedy *)
| Star (r : regex)         (* r*  greedy *)
| LazyStar (r : regex).    (* r*? *)

Definition Plus (r : regex) : regex := Seq r (Star r).

Declare Scope regex_scope.
Delimit Scope regex_scope with re.
Bind Scope regex_scope with regex.
Infix "·" := Seq (at level 40, left associativity) : regex_scope.
Infix "|||" := Alt (at level 50, left associativity) : regex_scope.

(** r"(\s?::.*?$\s?)" *)
Definition single_line_comment : regex :=
  (Opt Space · Lit ":"%char · Lit ":"%char · LazyStar Dot · Eol · Opt Space)%re.

(** r"(-:(?:.|\s)*?:-\s?)" *)
Definition multiline_comment : regex :=
  (Lit "-"%char · Lit ":"%char · LazyStar (Dot ||| Space) · Lit ":"%char
   · Lit "-"%char
   · Opt Space)%re.

(** r"(^\s+)" *)
Definition leading_whitespace : regex := (Bol · Plus Space)%re.

Definition REGEX_SUBSTITUTION : regex :=
  (single_line_comment ||| multiline_comment ||| leading_whitespace)%re.

(** A position in the subject: the character before it, if any, and the
    characters from it on. *)
Record cursor : Type := Cursor { before : option ascii; rest : text }.

Definition at_bol (c : cursor) : bool :=
  match before c with
  | None => true
  | Some p => bool_decide (p = LF)
  end.

Definition at_eol (c : cursor) : bool :=
  match rest c with
  | [] => true
  | x :: _ => bool_decide (x = LF)
  end.

Definition eat (p : ascii -> bool) (k : cursor -> option cursor)
    (c : cursor) : option cursor :=
  match rest c with
  | x :: t => if p x then k (Cursor (Some x) t) else None
  | [] => None
  end.

Definition or_else {A} (a b : option A) : option A :=
  match a with
  | Some x => Some x
  | None => b
  end.

(** The backtracking matcher of [re], in continuation-passing style:
    [rmatch r k c] matches [r] at [c] and then the rest of the pattern [k],
    trying the choices in the order [re] does.  A repetition is entered at
    most once per remaining character; the bodies of the repetitions of this
    pattern consume a character each time. *)
Fixpoint rmatch (r : regex) (k : cursor -> option cursor) (c : cursor)
    : option cursor :=
  match r with
  | Lit a => eat (fun x => bool_decide (x = a)) k c
  | Dot => eat (fun x => negb (bool_decide (x = LF))) k c
  | Space => eat isspace k c
  | Bol => if at_bol c then k c else None
  | Eol => if at_eol c then k c else None
  | Seq r1 r2 => rmatch r1 (rmatch r2 k) c
  | Alt r1 r2 => or_else (rmatch r1 k c) (rmatch r2 k c)
  | Opt r1 => or_else (rmatch r1 k c) (k c)
  | Star r1 =>
      (fix loop (n : nat) (c : cursor) : option cursor :=
         match n with
         | O => k c
         | S n' => or_else (rmatch r1 (loop n') c) (k c)
         end) (length (rest c)) c
  | LazyStar r1 =>
      (fix loop (n : nat) (c : cursor) : option cursor :=
         match n with
         | O => k c
         | S n' => or_else (k c) (rmatch r1 (loop n') c)
         end) (length (rest c)) c
  end.

(** One attempt of the whole pattern at a position; the end of the match. *)
Definition match_at (c : cursor) : option cursor :=
  rmatch REGEX_SUBSTITUTION Some c.

(** [re.sub(REGEX_SUBSTITUTION, "", s)] from a position on: the leftmost
    match is dropped and the scan goes on behind it; where the pattern does
    not match, or matches the empty string, the character is kept. *)
Fixpoint sub_from (fuel : nat) (c : cursor) : text :=
  match fuel with
  | O => []
  | S fuel' =>
      match rest c with
      | [] => []
      | x :: t =>
          match match_at c with
          | Some c' =>
              if bool_decide (length (rest c') < length (rest c))
              then sub_from fuel' c'
              else x :: sub_from fuel' (Cursor (Some x) t)
          | None => x :: sub_from fuel' (Cursor (Some x) t)
          end
      end
  end.

(** [re.sub(REGEX_SUBSTITUTION, "", file_content)] *)
Definition clean (s : text) : text := sub_from (length s) (Cursor None s).

(** ** Splitting *)

Definition cons_nonempty (w : text) (ws : list text) : list text :=
  match w with
  | [] => ws
  | _ => w :: ws
  end.

(** The token that starts at the head of the text, and the tokens behind it. *)
Fixpoint split_go (s : text) : text * list text :=
  match s with
  | [] => ([], [])
  | c :: t =>
      let '(w, ws) := split_go t in
      if isspace c then ([], cons_nonempty w ws) else (c :: w, ws)
  end.

(** [str.split()]: the maximal runs of characters that are not whitespace. *)
Definition split (s : text) : list text :=
  let '(w, ws) := split_go s in cons_nonempty w ws.

Definition CR : ascii := "013"%char.

(** [str.splitlines()]: a line ends at a line boundary, \r\n counts as one
    boundary, and there is no empty line behind the last boundary. *)
Fixpoint splitlines (s : text) : list text :=
  match s with
  | [] => []
  | c :: t =>
      if is_linebreak c then
        match t with
        | d :: t' =>
            if bool_decide (c = CR) && bool_decide (d = LF)
            then [] :: splitlines t'
            else [] :: splitlines t
        | [] => [[]]
        end
      else
        match splitlines t with
        | [] => [[c]]
        | l :: ls => (c :: l) :: ls
        end
  end.

Definition lines_text (ls : list string) : text :=
  txt (String.concat (String LF EmptyString) ls).

(** ** Paths *)

Definition path := list string.

(** [Path.parent]; the root is its own parent. *)
Definition parent (p : path) : path := removelast p.

(** [Path.name]; the root has the empty name. *)
Definition name (p : path) : string := List.last p EmptyString.

Definition joinpath (p rel : path) : path := p ++ rel.

(** [p.relative_to(base)], [None] for the ValueError of a [p] outside [base]. *)
Fixpoint relative_to (p base : path) : option path :=
  match base, p with
  | [], _ => Some p
  | b :: base', x :: p' => if bool_decide (x = b) then relative_to p' base' else None
  | _ :: _, [] => None
  end.

(** ** The world: file system, logger, console *)

Inductive node : Type :=
| Dir
| File (data : text).

#[global] Instance node_eq_dec : EqDecision node.
Proof. solve_decision. Defined.

Inductive level : Type := DEBUG | INFO | WARNING | ERROR.

Definition level_no (l : level) : nat :=
  match l with DEBUG => 10 | INFO => 20 | WARNING => 30 | ERROR => 40 end.

(** An argument of a logging call, formatted only when the record is emitted. *)
Inductive arg : Type :=
| AText (t : text)
| ATexts (l : list text)
| AInt (z : Z)
| APath (p : path).

Record log_record : Type := LogRecord {
  lvl : level;
  fmt : string;
  args : list arg;
  exc_info : bool
}.

Inductive exn : Type :=
| ValueError_unpack (got : nat)
    (* ValueError: not enough values to unpack (expected at least 2, got n) *)
| ValueError_relative_to (p base : path)
| IndexError                      (* list index out of range *)
| BuiltinError (what : string)    (* raised inside int(float(.)) *)
| FileExistsError (p : path)
| FileNotFoundError (p : path)
| NotADirectoryError (p : path)
| IsADirectoryError (p : path)
| SameFileError (src dst : path)
| Exit                            (* typer.Exit *)
| Abort.                          (* typer.Abort *)

(** [isinstance(e, shutil.SameFileError)] and [isinstance(e, OSError)];
    [shutil.SameFileError] is an [OSError]. *)
Definition is_SameFileError (e : exn) : bool :=
  match e with SameFileError _ _ => true | _ => false end.

Definition is_OSError (e : exn) : bool :=
  match e with
  | FileExistsError _ | FileNotFoundError _ | NotADirectoryError _
  | IsADirectoryError _ | SameFileError _ _ => true
  | _ => false
  end.

Definition is_FileNotFoundError (e : exn) : bool :=
  match e with FileNotFoundError _ => true | _ => false end.

Record world : Type := World {
  files : gmap path node;          (* the file system; the root is implicit *)
  logged : list log_record;        (* the calls made on LOGGER, in order *)
  threshold : level;               (* the level of LOGGER *)
  echoed : list (list string);     (* what typer.echo printed *)
  answers : list bool              (* the replies to typer.confirm to come *)
}.

(** The records that LOGGER passes on to its handler. *)
Definition emitted (w : world) : list log_record :=
  List.filter (fun r => level_no (threshold w) <=? level_no (lvl r)) (logged w).

Inductive outcome (A : Type) : Type :=
| Ret (a : A)
| Raise (e : exn).
Arguments Ret {A} a.
Arguments Raise {A} e.

Definition M (A : Type) : Type := world -> outcome A * world.

#[global] Instance M_ret : MRet M := fun A a w => (Ret a, w).

#[global] Instance M_bind : MBind M := fun A B f m w =>
  match m w with
  | (Ret a, w') => f a w'
  | (Raise e, w') => (Raise e, w')
  end.

Definition raise {A} (e : exn) : M A := fun w => (Raise e, w).

(** try: [m] except: [h e], for the exceptions [h] has a clause for. *)
Definition try_except {A} (m : M A) (h : exn -> option (M A)) : M A := fun w =>
  match m w with
  | (Ret a, w') => (Ret a, w')
  | (Raise e, w') =>
      match h e with
      | Some m' => m' w'
      | None => (Raise e, w')
      end
  end.

(** for x in l: f x *)
Fixpoint for_each {A} (f : A -> M unit) (l : list A) : M unit :=
  match l with
  | [] => mret tt
  | x :: l' => f x ;; for_each f l'
  end.

Definition get_files : M (gmap path node) := fun w => (Ret (files w), w).

Definition set_files (fs : gmap path node) : M unit := fun w =>
  (Ret tt, World fs (logged w) (threshold w) (echoed w) (answers w)).

Definition log (l : level) (f : string) (a : list arg) (exc : bool) : M unit :=
  fun w =>
  (Ret tt, World (files w) (logged w ++ [LogRecord l f a exc]) (threshold w)
                 (echoed w) (answers w)).

Definition LOGGER_debug f a := log DEBUG f a false.
Definition LOGGER_info f a := log INFO f a false.
Definition LOGGER_warning f a := log WARNING f a false.
Definition LOGGER_error f a exc := log ERROR f a exc.

Definition LOGGER_setLevel (l : level) : M unit := fun w =>
  (Ret tt, World (files w) (logged w) l (echoed w) (answers w)).

Definition typer_echo (x : list string) : M unit := fun w =>
  (Ret tt, World (files w) (logged w) (threshold w) (echoed w ++ [x]) (answers w)).

(** [typer.confirm]: the next reply; the prompt aborts at the end of input. *)
Definition typer_confirm : M bool := fun w =>
  match answers w with
  | b :: rest => (Ret b, World (files w) (logged w) (threshold w) (echoed w) rest)
  | [] => (Raise Abort, w)
  end.

(** *** File system primitives *)

Definition node_at (fs : gmap path node) (p : path) : option node :=
  match p with
  | [] => Some Dir
  | _ => fs !! p
  end.

Definition fs_exists (fs : gmap path node) (p : path) : bool :=
  match node_at fs p with
  | Some _ => true
  | None => false
  end.

Definition fs_is_dir (fs : gmap path node) (p : path) : bool :=
  match node_at fs p with
  | Some Dir => true
  | _ => false
  end.

(** [Path.exists], [Path.is_dir] *)
Definition exists_ (p : path) : M bool := fs ← get_files; mret (fs_exists fs p).
Definition is_dir (p : path) : M bool := fs ← get_files; mret (fs_is_dir fs p).

(** The entries strictly below [p]. *)
Definition below (p q : path) : Prop := p `prefix_of` q ∧ q ≠ p.

#[global] Instance below_dec p q : Decision (below p q).
Proof. unfold below. apply _. Defined.

Definition subtree (fs : gmap path node) (p : path) : gmap path node :=
  filter (fun kv => below p kv.1) fs.

(** The entries of the directory [p]. *)
Definition children (fs : gmap path node) (p : path) : gmap path node :=
  filter (fun kv => kv.1 ≠ [] ∧ parent kv.1 = p) fs.

(** The proper prefixes of a path, from the root down: the folders that the
    operating system goes through on the way to it. *)
Fixpoint ancestors (p : path) : list path :=
  match p with
  | [] => []
  | x :: t => [] :: map (cons x) (ancestors t)
  end.

Definition is_file (fs : gmap path node) (p : path) : bool :=
  match node_at fs p with
  | Some (File _) => true
  | _ => false
  end.

(** The path goes through a regular file. *)
Definition under_file (fs : gmap path node) (p : path) : bool :=
  existsb (is_file fs) (ancestors p).

(** The error of the operating system for a path that is not there:
    ENOTDIR when the path goes through a regular file, ENOENT otherwise. *)
Definition not_found (fs : gmap path node) (p : path) : exn :=
  if under_file fs p then NotADirectoryError p else FileNotFoundError p.

(** [any(p.iterdir())] *)
Definition any_iterdir (p : path) : M bool :=
  fs ← get_files;
  match node_at fs p with
  | None => raise (not_found fs p)
  | Some (File _) => raise (NotADirectoryError p)
  | Some Dir => mret (bool_decide (children fs p ≠ ∅))
  end.

(** [os.mkdir] *)
Definition os_mkdir (p : path) : M unit :=
  fs ← get_files;
  match node_at fs p with
  | Some _ => raise (FileExistsError p)
  | None =>
      match node_at fs (parent p) with
      | None => raise (not_found fs p)
      | Some (File _) => raise (NotADirectoryError p)
      | Some Dir => set_files (<[p := Dir]> fs)
      end
  end.

(** [Path.mkdir(parents, exist_ok)] of pathlib.  [n] bounds the climb to the
    parents; [mkdir] gives it the length of the path, and the climb ends at
    the root, which is its own parent, before [n] runs out. *)
Fixpoint mkdir_upto (n : nat) (parents exist_ok : bool) (p : path) : M unit :=
  try_except (os_mkdir p) (fun e =>
    if is_FileNotFoundError e then
      if negb parents || bool_decide (parent p = p) then None
      else
        match n with
        | O => None
        | S n' =>
            Some (mkdir_upto n' true true (parent p) ;;
                  mkdir_upto n' false exist_ok p)
        end
    else if is_OSError e then
      Some (d ← is_dir p;
            if negb exist_ok || negb d then raise e else mret tt)
    else None).

Definition mkdir (parents exist_ok : bool) (p : path) : M unit :=
  mkdir_upto (length p) parents exist_ok p.

(** [shutil.rmtree] *)
Definition rmtree (p : path) : M unit :=
  fs ← get_files;
  match node_at fs p with
  | None => raise (not_found fs p)
  | Some (File _) => raise (NotADirectoryError p)
  | Some Dir => set_files (filter (fun kv => ¬ p `prefix_of` kv.1) fs)
  end.

(** [shutil.copyfile]: refuses to copy a file onto itself, then opens the
    source for reading and the destination for writing. *)
Definition copyfile (src dst : path) : M unit :=
  fs ← get_files;
  if bool_decide (src = dst) && fs_exists fs src then raise (SameFileError src dst)
  else
    match node_at fs src with
    | None => raise (not_found fs src)
    | Some Dir => raise (IsADirectoryError src)
    | Some (File data) =>
        match node_at fs dst, node_at fs (parent dst) with
        | Some Dir, _ => raise (IsADirectoryError dst)
        | Some (File _), _ | None, Some Dir => set_files (<[dst := File data]> fs)
        | None, Some (File _) => raise (NotADirectoryError dst)
        | None, None => raise (not_found fs dst)
        end
    end.

(** The entries of the directory [p], as [os.scandir] lists them.  The
    order is that of the map; the operating system fixes none. *)
Definition listing (fs : gmap path node) (p : path) : list path :=
  (map_to_list (children fs p)).*1.

(** The directories from [p] down as the [**] of pathlib goes through them:
    [p] first, and every directory before the directories inside it.  [n]
    bounds the depth. *)
Fixpoint directories (n : nat) (fs : gmap path node) (p : path) : list path :=
  p :: match n with
       | O => []
       | S n' =>
           concat (map (directories n' fs)
                       (List.filter (fs_is_dir fs) (listing fs p)))
       end.

(** [p.glob("**/*")]: the entries of every directory from [p] down, so that
    an entry comes before what is inside it; nothing when [p] is not a
    directory.  No directory lies deeper below [p] than the map has
    entries.  pathlib lists a directory when the traversal reaches it; here
    the listing is taken when the traversal starts, which is the same as
    long as the body of the loop adds nothing below [p]. *)
Definition glob_all (p : path) : M (list path) :=
  fs ← get_files;
  mret (if fs_is_dir fs p
        then concat (map (listing fs) (directories (size fs) fs p))
        else []).

(** ** The program *)

Definition quoted (s : string) : string :=
  String DQ (s +:+ String DQ EmptyString).

(** *** [GameEnum] *)

Inductive GameEnum : Type := HADES | PYRE | TRANSISTOR | BASTION.

#[global] Instance GameEnum_eq_dec : EqDecision GameEnum.
Proof. solve_decision. Defined.

(** The value of the member, a [str]. *)
Definition value (g : GameEnum) : string :=
  match g with
  | HADES => "Hades"
  | PYRE => "Pyre"
  | TRANSISTOR => "Transistor"
  | BASTION => "Bastion"
  end.

Definition script_path (g : GameEnum) : list string :=
  match g with
  | HADES => ["Scritps/RoomManager.lua"]
  | PYRE => ["Scripts/Campaign.lua"; "Scripts/MPScripts.lua"]
  | TRANSISTOR => ["Scripts/AllCampaignScripts.txt"]
  | BASTION => [""]
  end.

Definition guess_game (game_path : path) : GameEnum :=
  let n := name (parent game_path) in
  if bool_decide (n = "Hades") then HADES
  else if bool_decide (n = "Pyre") then PYRE
  else if bool_decide (n = "Transistor") then TRANSISTOR
  else if bool_decide (n = "Bastion") then BASTION
  else HADES.

(** *** [load_mods] *)

Section Interpreter.

(** [int(float(token))] of the Python built-ins: the integer, or the
    exception they raise.  The interpreter is read for any behaviour of
    the two. *)
Variable int_float : text -> outcome Z.

(** The body of the loop of [load_mods], for one line. *)
Definition load_line (line : text) : M unit :=
  match split line with
  | command :: sub :: priority =>
      let c := lower command in
      if text_eqb c (txt "load") then
        match priority with
        | [] => raise IndexError
        | p0 :: _ =>
            match int_float p0 with
            | Ret z =>
                LOGGER_debug "Loading the folloing imports with priority %d"
                             [AInt z]
            | Raise e => raise e
            end
        end
      else if text_eqb c (txt "import") then
        LOGGER_debug "Importing %s" [AText sub]
      else if text_eqb c (txt "to") then
        LOGGER_debug "Changing destination for the following imports to %s"
                     [AText sub]
      else if text_eqb c (txt "top") then
        LOGGER_debug "Importing %s at the top of file %s."
                     [ATexts priority; AText []]
      else if text_eqb c (txt "xml") then mret tt
      else if text_eqb c (txt "map") then mret tt
      else if text_eqb c (txt "sjson") then mret tt
      else if text_eqb c (txt "include") then mret tt
      else
        LOGGER_warning ("Command " +:+ quoted "%s" +:+ " is not supported!")
                       [AText command]
  | toks => raise (ValueError_unpack (length toks))
  end.

Definition load_mods (modfile_commands : text) : M unit :=
  for_each load_line (splitlines modfile_commands).

End Interpreter.

(** *** [read_modfiles]

    The function returns before its loop over the modfiles; the loop is not
    part of what it does. *)

Definition changelist := list text.

Definition read_modfiles (modfolder_path : path) (game : GameEnum)
    : M changelist :=
  typer_echo (script_path game) ;;
  mret [].

(** *** [backup_files] *)

Definition backup_file (backup_path original_file : path) : M unit :=
  match relative_to original_file (parent backup_path) with
  | None => raise (ValueError_relative_to original_file (parent backup_path))
  | Some rel =>
      let destination_path := joinpath backup_path rel in
      e ← exists_ (parent destination_path);
      (if negb e then
         LOGGER_debug ("Creating folder " +:+ quoted "%s")
                      [APath (parent destination_path)] ;;
         mkdir true false (parent destination_path)
       else mret tt) ;;
      d ← is_dir original_file;
      if (d : bool) then mkdir false false destination_path
      else
        LOGGER_debug ("Copying file " +:+ quoted "%s" +:+ " to " +:+ quoted "%s")
                     [APath original_file; APath destination_path] ;;
        copyfile original_file destination_path
  end.

Definition backup_files (file_list : list path) (backup_path : path) : M unit :=
  for_each (backup_file backup_path) file_list.

(** *** [restore_files] *)

Definition restore_item (game_path backup_path item : path) : M unit :=
  match relative_to item backup_path with
  | None => raise (ValueError_relative_to item backup_path)
  | Some rel =>
      let original_path := joinpath game_path rel in
      d ← is_dir original_path;
      if (d : bool) then mkdir true true original_path
      else
        mkdir true true (parent original_path) ;;
        try_except
          (copyfile item (joinpath game_path rel) ;;
           LOGGER_info ("Restoring file " +:+ quoted "%s" +:+ " to "
                        +:+ quoted "%s" +:+ ".")
                       [APath backup_path; APath original_path])
          (fun e =>
             if is_SameFileError e then
               Some (LOGGER_warning
                       ("Files " +:+ quoted "%s" +:+ " and " +:+ quoted "%s"
                        +:+ " are identical, skipping.")
                       [APath backup_path; APath original_path])
             else if is_OSError e then
               Some (LOGGER_error ("Unable to restore file " +:+ quoted "%s")
                                  [APath original_path] true)
             else None)
  end.

Definition restore_files (game_path backup_path : path) : M unit :=
  items ← glob_all backup_path;
  for_each (restore_item game_path backup_path) items.

(** *** [uninstall_mods] *)

Definition uninstall_mods (game_path backup_path modfolder_path : path)
    : M unit :=
  e ← exists_ backup_path;
  (if (e : bool) then
     nonempty ← any_iterdir backup_path;
     (if (nonempty : bool) then
        LOGGER_info ("Restoring game files from backup folder " +:+ quoted "%s")
                    [APath backup_path] ;;
        restore_files game_path backup_path
      else
        LOGGER_warning
          ("Backup folder " +:+ quoted "%s"
           +:+ " is empty. Nothing to restore! Please validate your game files")
          [APath backup_path]) ;;
     LOGGER_info ("Deleted backup folder " +:+ quoted "%s" +:+ ".")
                 [APath backup_path] ;;
     rmtree backup_path
   else
     LOGGER_warning
       ("Backup folder " +:+ quoted "%s"
        +:+ " not found! Please validate your game files.")
       [APath backup_path]) ;;
  e ← exists_ modfolder_path;
  (if (e : bool) then
     rmtree modfolder_path ;;
     LOGGER_info ("Deleted mod folder " +:+ quoted "%s" +:+ ".")
                 [APath modfolder_path]
   else mret tt) ;;
  raise Exit.

(** *** [cli]

    The prompts of [typer.confirm] are not recorded, only their replies. *)

Definition cli (game_path : path) (game : option GameEnum)
    (clean verbose : bool) : M unit :=
  (if verbose then LOGGER_setLevel DEBUG else mret tt) ;;
  let backup_path := joinpath game_path ["Backup"] in
  let modfolder_path := joinpath game_path ["Mods"] in
  let detected_game := guess_game game_path in
  let game := match game with None => detected_game | Some g => g end in
  refused ← (if negb (bool_decide (game = detected_game))
             then b ← typer_confirm; mret (negb b) else mret false);
  (if (refused : bool) then raise Abort else mret tt) ;;
  (if clean then uninstall_mods game_path backup_path modfolder_path
   else mret tt) ;;
  e ← exists_ modfolder_path;
  (if negb e then
     LOGGER_warning ("Mods folder " +:+ quoted "%s" +:+ " does not exist!")
                    [APath modfolder_path] ;;
     create ← typer_confirm;
     (if (create : bool) then
        mkdir false false modfolder_path ;;
        LOGGER_info
          ("Created mods folder " +:+ quoted "%s"
           +:+ ". Place your mods there and restart the application")
          [APath modfolder_path]
      else mret tt) ;;
     raise Exit
   else mret tt) ;;
  e ← exists_ backup_path;
  (if negb e then
     LOGGER_debug ("Created backup folder " +:+ quoted "%s" +:+ ".")
                  [APath backup_path] ;;
     mkdir false false backup_path
   else mret tt) ;;
  read_modfiles modfolder_path game ;;
  mret tt.

(** * Properties *)

(** ** The embedding at work *)

Example split_tokens :
  split (txt "  load   1  ") = [txt "load"; txt "1"].
Proof. reflexivity. Qed.

Example splitlines_lines :
  splitlines (lines_text ["a"; ""; "b"; ""]) = [txt "a"; txt ""; txt "b"].
Proof. reflexivity. Qed.

(** A single-line comment takes the end of its line with it, a closed
    multiline comment one whitespace character behind it. *)
Example clean_comments :
  clean (lines_text [":: header"; "   load  3 4"; "-: a"; "b :-"; "to x ::y";
                     "import z"])
  = lines_text ["load  3 4"; "to ximport z"].
Proof. vm_compute. reflexivity. Qed.

Example guess_game_parent :
  guess_game ["games"; "Pyre"; "Content"] = PYRE
  /\ guess_game ["games"; "Pyre"] = HADES.
Proof. split; reflexivity. Qed.

(** ** Reasoning in [M] *)

Ltac unfold_M :=
  repeat progress
    (unfold mbind, M_bind, mret, M_ret, raise, try_except, get_files,
       set_files, exists_, is_dir, LOGGER_debug, LOGGER_info, LOGGER_warning,
       LOGGER_error, log, typer_echo, typer_confirm, LOGGER_setLevel in *);
  cbn beta iota in *.

(** The world with more records logged. *)
Definition add_logs (recs : list log_record) (w : world) : world :=
  World (files w) (logged w ++ recs) (threshold w) (echoed w) (answers w).

Lemma add_logs_nil w : add_logs [] w = w.
Proof. destruct w. unfold add_logs. simpl. by rewrite app_nil_r. Qed.

Lemma add_logs_app r1 r2 w : add_logs r2 (add_logs r1 w) = add_logs (r1 ++ r2) w.
Proof. unfold add_logs. simpl. by rewrite app_assoc. Qed.

Lemma for_each_app {A} (f : A -> M unit) l1 l2 w :
  for_each f (l1 ++ l2) w =
  match for_each f l1 w with
  | (Ret _, w1) => for_each f l2 w1
  | (Raise e, w1) => (Raise e, w1)
  end.
Proof.
  revert w. induction l1 as [|x l1 IH]; intros w; simpl.
  - reflexivity.
  - unfold_M. destruct (f x w) as [[[]|e] w1]; [apply IH | reflexivity].
Qed.

Lemma for_each_raise_at {A} (f : A -> M unit) pre x post w w1 w2 e :
  for_each f pre w = (Ret tt, w1) ->
  f x w1 = (Raise e, w2) ->
  for_each f (pre ++ x :: post) w = (Raise e, w2).
Proof.
  intros Hpre Hx. rewrite for_each_app, Hpre. simpl. unfold_M. by rewrite Hx.
Qed.

(** ** The game registry *)

(** C10. The default script list of HADES is the one path
    Scritps/RoomManager.lua, which does not start with the game's Scripts
    directory (as the lists of PYRE and TRANSISTOR do), and the list of
    BASTION is the one empty path. *)
Theorem script_path_hades_bastion :
  script_path HADES = ["Scritps/RoomManager.lua"]
  /\ Forall (fun p => String.prefix "Scripts/" p = false) (script_path HADES)
  /\ Forall (fun p => String.prefix "Scripts/" p = true)
            (script_path PYRE ++ script_path TRANSISTOR)
  /\ script_path BASTION = [""].
Proof. repeat split; repeat constructor. Qed.

(** ** [read_modfiles] and the installation *)

Lemma read_modfiles_run modfolder_path game w :
  read_modfiles modfolder_path game w =
  (Ret [], World (files w) (logged w) (threshold w)
                 (echoed w ++ [script_path game]) (answers w)).
Proof. reflexivity. Qed.

(** The regular files of [w'] are those of [w], with the same content. *)
Definition same_regular_files (w w' : world) : Prop :=
  forall p data,
    files w' !! p = Some (File data) <-> files w !! p = Some (File data).

Definition keeps_files {A} (m : M A) : Prop :=
  forall w, same_regular_files w (m w).2.

Lemma same_regular_files_refl w : same_regular_files w w.
Proof. by intros p data. Qed.

Lemma same_regular_files_trans w1 w2 w3 :
  same_regular_files w1 w2 -> same_regular_files w2 w3 ->
  same_regular_files w1 w3.
Proof.
  intros H12 H23 p data. split; intros H.
  - by apply H12, H23.
  - by apply H23, H12.
Qed.

Lemma keeps_files_ret {A} (a : A) : keeps_files (mret a).
Proof. intros w. apply same_regular_files_refl. Qed.

Lemma keeps_files_raise {A} e : keeps_files (@raise A e).
Proof. intros w. apply same_regular_files_refl. Qed.

Lemma keeps_files_bind {A B} (m : M A) (f : A -> M B) :
  keeps_files m -> (forall a, keeps_files (f a)) -> keeps_files (m ≫= f).
Proof.
  intros Hm Hf w. unfold mbind, M_bind.
  specialize (Hm w). destruct (m w) as [[a|e] w1]; simpl in *.
  - eapply same_regular_files_trans; [exact Hm | apply Hf].
  - exact Hm.
Qed.

Lemma keeps_files_if {A} (b : bool) (m1 m2 : M A) :
  keeps_files m1 -> keeps_files m2 -> keeps_files (if b then m1 else m2).
Proof. by destruct b. Qed.

Lemma keeps_files_log l f a exc : keeps_files (log l f a exc).
Proof. by intros w q data. Qed.

Lemma keeps_files_setLevel l : keeps_files (LOGGER_setLevel l).
Proof. by intros w q data. Qed.

Lemma keeps_files_confirm : keeps_files typer_confirm.
Proof.
  intros w q data. unfold typer_confirm. by destruct (answers w).
Qed.

Lemma keeps_files_exists p : keeps_files (exists_ p).
Proof. by intros w q data. Qed.

Lemma keeps_files_read_modfiles p g : keeps_files (read_modfiles p g).
Proof. by intros w q data. Qed.

Lemma node_at_None fs p : node_at fs p = None -> p <> [] /\ fs !! p = None.
Proof. destruct p; [discriminate | by split]. Qed.

(** [os.mkdir] fails without a change, or adds a directory at a path that is
    free. *)
Lemma os_mkdir_cases p w :
  (exists e, os_mkdir p w = (Raise e, w))
  \/ (node_at (files w) p = None
      /\ node_at (files w) (parent p) = Some Dir
      /\ os_mkdir p w =
         (Ret tt, World (<[p := Dir]> (files w)) (logged w) (threshold w)
                        (echoed w) (answers w))).
Proof.
  unfold os_mkdir. unfold_M.
  destruct (node_at (files w) p) eqn:Hp; [left; eauto |].
  destruct (node_at (files w) (parent p)) as [[|d]|] eqn:Hpp;
    [right; auto | left; eauto | left; eauto].
Qed.

Lemma keeps_files_os_mkdir p : keeps_files (os_mkdir p).
Proof.
  intros w. destruct (os_mkdir_cases p w) as [[e ->]|(Hp & _ & ->)]; simpl.
  - apply same_regular_files_refl.
  - apply node_at_None in Hp as [_ Hp]. intros q data. cbn [files snd].
    destruct (decide (p = q)) as [<-|Hne].
    + rewrite lookup_insert_eq, Hp. split; discriminate.
    + by rewrite lookup_insert_ne.
Qed.

(** [Path.mkdir()] with its defaults. *)
Lemma keeps_files_mkdir_plain p : keeps_files (mkdir false false p).
Proof.
  intros w. unfold mkdir.
  assert (H : forall n, same_regular_files w (mkdir_upto n false false p w).2).
  { intros n. pose proof (keeps_files_os_mkdir p w) as Hk.
    destruct n; simpl; unfold try_except;
      destruct (os_mkdir p w) as [[[]|e] w1]; simpl in *; try exact Hk;
      destruct (is_FileNotFoundError e); simpl; try exact Hk;
      destruct (is_OSError e); simpl; exact Hk. }
  apply H.
Qed.

(** Without [--clean], [cli] leaves every regular file as it was. *)
Lemma cli_install_keeps_files game_path game verbose :
  keeps_files (cli game_path game false verbose).
Proof.
  unfold cli.
  repeat first
    [ apply keeps_files_ret | apply keeps_files_raise
    | apply keeps_files_log | apply keeps_files_setLevel
    | apply keeps_files_confirm | apply keeps_files_exists
    | apply keeps_files_read_modfiles | apply keeps_files_mkdir_plain
    | apply keeps_files_if
    | apply keeps_files_bind; [| intros ?] ].
Qed.

(** C1. [read_modfiles] returns the empty list for every mod folder and
    game; it only echoes the script paths of the game and leaves the file
    system and the log as they were, so no modfile is read, cleaned or
    interpreted.  An installation ([cli] without [--clean]) therefore
    changes no regular file. *)
Theorem read_modfiles_returns_empty :
  (forall modfolder_path game w,
     exists w',
       read_modfiles modfolder_path game w = (Ret [], w')
       /\ files w' = files w /\ logged w' = logged w
       /\ echoed w' = echoed w ++ [script_path game])
  /\ (forall game_path game verbose w,
        same_regular_files w (cli game_path game false verbose w).2).
Proof.
  split.
  - intros modfolder_path game w. eexists. split; [apply read_modfiles_run |].
    by simpl.
  - intros game_path game verbose w. apply cli_install_keeps_files.
Qed.

(** ** The directive interpreter *)

(** A stand-in for [int(float(.))] where its value plays no part. *)
Definition no_int_float : text -> outcome Z :=
  fun _ => Raise (BuiltinError "int(float(.))").

Definition quiet_world : world := World ∅ [] INFO [] [].

Section InterpreterFacts.

Variable int_float : text -> outcome Z.

Lemma log_run l f a exc w :
  log l f a exc w = (Ret tt, add_logs [LogRecord l f a exc] w).
Proof. reflexivity. Qed.

Lemma raise_run {A} e w : @raise A e w = (Raise e, add_logs [] w).
Proof. by rewrite add_logs_nil. Qed.

Lemma ret_run {A} (a : A) w : (mret a : M A) w = (Ret a, add_logs [] w).
Proof. by rewrite add_logs_nil. Qed.

(** What a line logs, and whether it raises, depends on the line alone. *)
Lemma load_line_effect line :
  exists o recs, forall w, load_line int_float line w = (o, add_logs recs w).
Proof.
  unfold load_line.
  destruct (split line) as [|command [|sub priority]];
    [eexists _, _; intros w; apply raise_run ..|].
  cbv zeta.
  repeat match goal with
         | |- context [if ?b then _ else _] => destruct b
         end;
    try (eexists _, _; intros w; first [apply ret_run | apply log_run]).
  destruct priority as [|p0 ?]; [eexists _, _; intros w; apply raise_run|].
  destruct (int_float p0);
    eexists _, _; intros w; first [apply raise_run | apply log_run].
Qed.

Lemma load_lines_effect lines :
  exists o recs, forall w,
    for_each (load_line int_float) lines w = (o, add_logs recs w).
Proof.
  induction lines as [|line lines (o2 & recs2 & IH)].
  - exists (Ret tt), []. intros w. apply ret_run.
  - destruct (load_line_effect line) as ([[]|e] & recs1 & H1).
    + exists o2, (recs1 ++ recs2). intros w. simpl. unfold mbind, M_bind.
      by rewrite H1, IH, add_logs_app.
    + exists (Raise e), recs1. intros w. simpl. unfold mbind, M_bind.
      by rewrite H1.
Qed.

Lemma load_line_short line w :
  length (split line) < 2 ->
  load_line int_float line w = (Raise (ValueError_unpack (length (split line))), w).
Proof.
  unfold load_line. intros H.
  destruct (split line) as [|command [|sub priority]]; simpl in *;
    [reflexivity | reflexivity | lia].
Qed.

Lemma load_line_load_two line command sub w :
  split line = [command; sub] ->
  lower command = txt "load" ->
  load_line int_float line w = (Raise IndexError, w).
Proof.
  unfold load_line. intros -> Hc. cbv zeta. rewrite Hc. reflexivity.
Qed.

End InterpreterFacts.

(** C9. A line of exactly two tokens whose first token is load in any
    letter case makes [load_mods] raise IndexError: the lines before it have
    been processed, nothing is logged for it, and the exception leaves
    [load_mods]. *)
Theorem load_two_tokens_IndexError int_float s pre line post command sub w w1 :
  splitlines s = pre ++ line :: post ->
  for_each (load_line int_float) pre w = (Ret tt, w1) ->
  split line = [command; sub] ->
  lower command = txt "load" ->
  load_mods int_float s w = (Raise IndexError, w1).
Proof.
  intros Hs Hpre Hline Hc. unfold load_mods. rewrite Hs.
  eapply for_each_raise_at; [exact Hpre |].
  by eapply load_line_load_two.
Qed.

Lemma load_two_tokens_IndexError_witness :
  load_mods no_int_float (lines_text ["import a.lua"; "LoaD 1"; "to b.lua"])
            quiet_world
  = (Raise IndexError,
     add_logs [LogRecord DEBUG "Importing %s" [AText (txt "a.lua")] false]
              quiet_world).
Proof.
  apply (load_two_tokens_IndexError no_int_float _ [txt "import a.lua"]
           (txt "LoaD 1") [txt "to b.lua"] (txt "LoaD") (txt "1"));
    reflexivity.
Defined.

(** C4 as the code has it.  A line of fewer than two tokens makes
    [load_mods] raise the ValueError of the failed unpacking, which carries
    the number of tokens only; [load_mods] does not catch it, so the lines
    behind it are not processed. *)
Theorem short_line_ValueError int_float s pre line post w w1 :
  splitlines s = pre ++ line :: post ->
  for_each (load_line int_float) pre w = (Ret tt, w1) ->
  length (split line) < 2 ->
  load_mods int_float s w
  = (Raise (ValueError_unpack (length (split line))), w1).
Proof.
  intros Hs Hpre Hline. unfold load_mods. rewrite Hs.
  eapply for_each_raise_at; [exact Hpre |].
  by apply load_line_short.
Qed.

Lemma short_line_ValueError_witness :
  load_mods no_int_float (lines_text ["to b.lua"; "import"; "import c.lua"])
            quiet_world
  = (Raise (ValueError_unpack 1),
     add_logs [LogRecord DEBUG
                 "Changing destination for the following imports to %s"
                 [AText (txt "b.lua")] false]
              quiet_world).
Proof.
  apply (short_line_ValueError no_int_float _ [txt "to b.lua"] (txt "import")
           [txt "import c.lua"]); [reflexivity | reflexivity | simpl; lia].
Defined.

(** C4 as the specification has it fails: the exception of a one-token line
    is the same ValueError whether the line is the first or the second of
    the text, and names neither a mod nor a line. *)
Lemma short_line_error_is_anonymous :
  (load_mods no_int_float (txt "import") quiet_world).1
  = Raise (ValueError_unpack 1)
  /\ (load_mods no_int_float (lines_text ["to b.lua"; "import"]) quiet_world).1
     = Raise (ValueError_unpack 1).
Proof. split; reflexivity. Qed.

Definition scenario_A : text :=
  lines_text ["load 1"; "import foo.txt"; "to Scripts/Bar.lua"; "import baz.txt"].

(** C3 as the specification has it fails: on the modfile of scenario A
    [load_mods] returns no plan; it stops at the first line. *)
Lemma scenario_A_no_plan :
  load_mods no_int_float scenario_A quiet_world = (Raise IndexError, quiet_world).
Proof. reflexivity. Qed.

(** C3 as the code has it.  [load_mods] builds no merge plan and threads no
    state: it returns nothing, and a run only appends to the log, with an
    outcome and records that depend on the text alone, line by line.  For
    the three lines behind [load 1] of scenario A these are three DEBUG
    records. *)
Theorem load_mods_only_logs :
  (forall int_float s, exists o recs, forall w,
      load_mods int_float s w = (o, add_logs recs w))
  /\ (forall int_float line, exists o recs, forall w,
        load_line int_float line w = (o, add_logs recs w))
  /\ (forall int_float w,
        load_mods int_float
          (lines_text ["import foo.txt"; "to Scripts/Bar.lua"; "import baz.txt"]) w
        = (Ret tt,
           add_logs
             [LogRecord DEBUG "Importing %s" [AText (txt "foo.txt")] false;
              LogRecord DEBUG
                "Changing destination for the following imports to %s"
                [AText (txt "Scripts/Bar.lua")] false;
              LogRecord DEBUG "Importing %s" [AText (txt "baz.txt")] false]
             w)).
Proof.
  split; [|split].
  - intros int_float s. apply load_lines_effect.
  - intros int_float line. apply load_line_effect.
  - intros int_float w. unfold load_mods.
    change (splitlines _) with
      [txt "import foo.txt"; txt "to Scripts/Bar.lua"; txt "import baz.txt"].
    cbn [for_each]. unfold mbind, M_bind.
    change (load_line int_float (txt "import foo.txt") w) with
      (LOGGER_debug "Importing %s" [AText (txt "foo.txt")] w).
    unfold LOGGER_debug at 1. rewrite log_run.
    match goal with |- context [load_line _ _ ?w1] =>
      change (load_line int_float (txt "to Scripts/Bar.lua") w1) with
        (LOGGER_debug "Changing destination for the following imports to %s"
                      [AText (txt "Scripts/Bar.lua")] w1)
    end.
    unfold LOGGER_debug at 1. rewrite log_run.
    match goal with |- context [load_line _ _ ?w1] =>
      change (load_line int_float (txt "import baz.txt") w1) with
        (LOGGER_debug "Importing %s" [AText (txt "baz.txt")] w1)
    end.
    unfold LOGGER_debug. rewrite log_run, !add_logs_app. reflexivity.
Qed.

(** ** Uninstalling *)

Definition backup_not_found (backup_path : path) : log_record :=
  LogRecord WARNING
    ("Backup folder " +:+ quoted "%s"
     +:+ " not found! Please validate your game files.")
    [APath backup_path] false.

Definition deleted_mod_folder (modfolder_path : path) : log_record :=
  LogRecord INFO ("Deleted mod folder " +:+ quoted "%s" +:+ ".")
    [APath modfolder_path] false.

Lemma fs_exists_false fs p : node_at fs p = None -> fs_exists fs p = false.
Proof. unfold fs_exists. by intros ->. Qed.

(** C5 as the code has it.  Without a backup folder, and with a mods folder
    that is absent or a directory, [uninstall_mods] logs the warning, removes
    the mods folder with all that is below it when it is there, and ends by
    raising [typer.Exit]. *)
Theorem uninstall_without_backup game_path backup_path modfolder_path w :
  node_at (files w) backup_path = None ->
  (forall data, node_at (files w) modfolder_path <> Some (File data)) ->
  exists w',
    uninstall_mods game_path backup_path modfolder_path w = (Raise Exit, w')
    /\ logged w' =
       logged w ++ backup_not_found backup_path ::
         (if fs_exists (files w) modfolder_path
          then [deleted_mod_folder modfolder_path] else [])
    /\ (forall q,
          files w' !! q =
          if fs_exists (files w) modfolder_path
             && bool_decide (modfolder_path `prefix_of` q)
          then None else files w !! q).
Proof.
  intros Hb Hm. unfold uninstall_mods, rmtree. unfold_M.
  rewrite (fs_exists_false _ _ Hb).
  cbn [files logged threshold echoed answers]. unfold fs_exists.
  destruct (node_at (files w) modfolder_path) as [[|data]|] eqn:Hn;
    cbn [files logged threshold echoed answers]; rewrite ?Hn.
  - eexists. split; [reflexivity |]. cbn [files logged]. split.
    + by rewrite <- app_assoc.
    + intros q. cbn [andb]. case_bool_decide as Hq.
      * apply map_lookup_filter_None. right. intros x _ Hnot. by apply Hnot.
      * destruct (files w !! q) as [x|] eqn:Hx.
        -- apply map_lookup_filter_Some. by split.
        -- apply map_lookup_filter_None. by left.
  - by destruct (Hm data).
  - eexists. split; [reflexivity |]. cbn [files logged]. by split.
Qed.

Definition world_of (fs : gmap path node) : world := World fs [] INFO [] [].

Definition modded_without_backup : gmap path node :=
  list_to_map
    [ (["g"], Dir);
      (["g"; "Mods"], Dir);
      (["g"; "Mods"; "m"], Dir);
      (["g"; "Mods"; "m"; "modfile.txt"], File (txt "import a.lua")) ].

Lemma uninstall_without_backup_witness :
  exists w',
    uninstall_mods ["g"] ["g"; "Backup"] ["g"; "Mods"]
                   (world_of modded_without_backup) = (Raise Exit, w')
    /\ logged w' =
       [backup_not_found ["g"; "Backup"]; deleted_mod_folder ["g"; "Mods"]]
    /\ (forall q,
          files w' !! q =
          if true && bool_decide (["g"; "Mods"] `prefix_of` q)
          then None else modded_without_backup !! q).
Proof.
  apply (uninstall_without_backup ["g"] ["g"; "Backup"] ["g"; "Mods"]
           (world_of modded_without_backup)).
  - reflexivity.
  - intros data. vm_compute. discriminate.
Defined.

(** C5 as the specification has it fails: the call ends with an exception. *)
Lemma uninstall_raises_Exit :
  (uninstall_mods ["g"] ["g"; "Backup"] ["g"; "Mods"]
                  (world_of modded_without_backup)).1 = Raise Exit.
Proof. vm_compute. reflexivity. Qed.

(** ** Paths and folders *)

Lemma relative_to_app p base rel :
  relative_to p base = Some rel -> p = base ++ rel.
Proof.
  revert p. induction base as [|b base IH]; intros p H.
  - destruct p; injection H as <-; reflexivity.
  - destruct p as [|x p]; [discriminate |]. cbn [relative_to] in H.
    case_bool_decide; [subst | discriminate]. simpl. f_equal. by apply IH.
Qed.

Lemma relative_to_join base rel : relative_to (base ++ rel) base = Some rel.
Proof.
  induction base as [|b base IH]; [by destruct rel |].
  cbn [app relative_to]. by rewrite bool_decide_eq_true_2.
Qed.

Lemma relative_to_None p base :
  relative_to p base = None <-> ~ base `prefix_of` p.
Proof.
  split.
  - intros H [k ->]. by rewrite relative_to_join in H.
  - intros H. destruct (relative_to p base) as [rel|] eqn:E; [| done].
    destruct H. exists rel. by apply relative_to_app.
Qed.

Lemma node_at_File fs p data :
  node_at fs p = Some (File data) -> fs !! p = Some (File data).
Proof. by destruct p. Qed.

Lemma node_at_insert_ne fs p q n :
  p <> q -> node_at (<[p := n]> fs) q = node_at fs q.
Proof. intros Hne. destruct q; [done |]. simpl. by rewrite lookup_insert_ne. Qed.

Lemma parent_prefix p : parent p `prefix_of` p.
Proof.
  unfold parent. destruct (decide (p = [])) as [->|Hp]; [done |].
  exists [List.last p EmptyString]. by apply app_removelast_last.
Qed.

Lemma parent_length p : p <> [] -> S (length (parent p)) = length p.
Proof.
  intros Hp. unfold parent.
  rewrite (app_removelast_last EmptyString Hp) at 2.
  rewrite length_app. simpl. lia.
Qed.

Lemma parent_ne p : p <> [] -> parent p <> p.
Proof. intros Hp He. apply parent_length in Hp. rewrite He in Hp. lia. Qed.

Lemma not_prefix_parent p : p <> [] -> ~ p `prefix_of` parent p.
Proof.
  intros Hp H%prefix_length. apply parent_length in Hp. lia.
Qed.

Lemma node_at_insert_eq fs p n : p <> [] -> node_at (<[p := n]> fs) p = Some n.
Proof. destruct p; [done |]. intros _. simpl. by rewrite lookup_insert_eq. Qed.

(** What is there stays, and what is new is a directory on the way to [p]. *)
Definition dirs_added (p : path) (fs fs' : gmap path node) : Prop :=
  node_at fs' p = Some Dir
  /\ forall q,
       node_at fs' q = node_at fs q
       \/ (node_at fs q = None /\ q `prefix_of` p /\ node_at fs' q = Some Dir).

Lemma dirs_added_insert p fs :
  node_at fs p = None -> dirs_added p fs (<[p := Dir]> fs).
Proof.
  intros Hp. pose proof (node_at_None _ _ Hp) as [Hne _]. split.
  - by apply node_at_insert_eq.
  - intros q. destruct (decide (p = q)) as [<-|Hq].
    + right. by rewrite node_at_insert_eq.
    + left. by apply node_at_insert_ne.
Qed.

Lemma mkdir_child_run n exist_ok p w :
  node_at (files w) p = None ->
  node_at (files w) (parent p) = Some Dir ->
  mkdir_upto n false exist_ok p w =
  (Ret tt, World (<[p := Dir]> (files w)) (logged w) (threshold w)
                 (echoed w) (answers w)).
Proof.
  intros Hp Hparent.
  assert (Hos : os_mkdir p w =
    (Ret tt, World (<[p := Dir]> (files w)) (logged w) (threshold w)
                   (echoed w) (answers w))).
  { unfold os_mkdir. unfold_M. by rewrite Hp, Hparent. }
  destruct n; cbn [mkdir_upto]; unfold try_except; by rewrite Hos.
Qed.

Lemma ancestors_spec q p : q ∈ ancestors p <-> q `prefix_of` p /\ q <> p.
Proof.
  revert q. induction p as [|x p IH]; intros q; cbn [ancestors].
  - split; [by intros H%elem_of_nil |]. intros [H%prefix_nil_inv Hne]. done.
  - rewrite elem_of_cons, list_elem_of_fmap. split.
    + intros [->|(q' & -> & [Hq Hne]%IH)].
      * split; [apply prefix_nil | done].
      * split; [by apply prefix_cons | congruence].
    + intros [Hq Hne]. destruct q as [|y q]; [by left |]. right.
      pose proof (prefix_cons_inv_1 _ _ _ _ Hq) as ->.
      apply prefix_cons_inv_2 in Hq. exists q. split; [done |].
      apply IH. split; [done | congruence].
Qed.

Lemma under_file_true fs p q d :
  q `prefix_of` p -> q <> p -> node_at fs q = Some (File d) ->
  under_file fs p = true.
Proof.
  intros Hq Hne Hd. unfold under_file. apply existsb_exists. exists q. split.
  - apply list_elem_of_In. by apply ancestors_spec.
  - unfold is_file. by rewrite Hd.
Qed.

Lemma under_file_false fs p :
  (forall q d, q `prefix_of` p -> node_at fs q <> Some (File d)) ->
  under_file fs p = false.
Proof.
  intros Hfree. destruct (under_file fs p) eqn:Hu; [| done].
  unfold under_file in Hu. apply existsb_exists in Hu as (q & Hq & Hf).
  apply list_elem_of_In, ancestors_spec in Hq as [Hq _]. unfold is_file in Hf.
  destruct (node_at fs q) as [[|d]|] eqn:Hn; try done. by destruct (Hfree q d).
Qed.

Lemma not_found_OSError fs p : is_OSError (not_found fs p) = true.
Proof. unfold not_found. by destruct (under_file fs p). Qed.

Lemma mkdir_existing_dir n parents p w :
  node_at (files w) p = Some Dir ->
  mkdir_upto n parents true p w = (Ret tt, w).
Proof.
  intros Hp.
  assert (Hos : os_mkdir p w = (Raise (FileExistsError p), w)).
  { unfold os_mkdir. unfold_M. by rewrite Hp. }
  destruct n; simpl; unfold try_except; rewrite Hos; simpl;
    unfold is_dir, get_files, mbind, M_bind, mret, M_ret, fs_is_dir;
    by rewrite Hp.
Qed.

(** [Path.mkdir(parents=True)] of a path that is not there makes the
    missing directories down to it, when no file stands in the way. *)
Lemma mkdir_parents_missing n : forall p exist_ok w,
  length p <= n ->
  node_at (files w) p = None ->
  (forall q d, q `prefix_of` p -> node_at (files w) q <> Some (File d)) ->
  exists fs',
    mkdir_upto n true exist_ok p w =
    (Ret tt, World fs' (logged w) (threshold w) (echoed w) (answers w))
    /\ dirs_added p (files w) fs'.
Proof.
  induction n as [|n IH]; intros p exist_ok w Hn Hp Hfree.
  - destruct p; [discriminate Hp | simpl in Hn; lia].
  - pose proof (node_at_None _ _ Hp) as [Hne _].
    destruct (node_at (files w) (parent p)) as [[|d]|] eqn:Hparent.
    + exists (<[p := Dir]> (files w)). split; [| by apply dirs_added_insert].
      cbn [mkdir_upto]. unfold try_except, os_mkdir. unfold_M.
      by rewrite Hp, Hparent.
    + destruct (Hfree (parent p) d (parent_prefix p) Hparent).
    + destruct (IH (parent p) true w) as (fs1 & Hrun & Hdir & Hadd);
        [pose proof (parent_length p Hne); lia | done | |].
      { intros q d Hq. apply Hfree. etrans; [exact Hq | apply parent_prefix]. }
      set (w1 := World fs1 (logged w) (threshold w) (echoed w) (answers w)) in *.
      assert (Hp1 : node_at fs1 p = None).
      { destruct (Hadd p) as [->|(_ & Hpre & _)]; [done |].
        by destruct (not_prefix_parent p Hne). }
      exists (<[p := Dir]> fs1). split.
      * cbn [mkdir_upto]. unfold try_except at 1, os_mkdir at 1. unfold_M.
        rewrite Hp, Hparent. unfold not_found.
        rewrite (under_file_false _ _ Hfree). cbn [is_FileNotFoundError negb orb].
        rewrite bool_decide_eq_false_2 by (by apply parent_ne).
        rewrite Hrun. by rewrite (mkdir_child_run n exist_ok p w1 Hp1 Hdir).
      * split; [by apply node_at_insert_eq |]. intros q.
        destruct (decide (p = q)) as [<-|Hq].
        -- right. by rewrite node_at_insert_eq.
        -- rewrite node_at_insert_ne by done.
           destruct (Hadd q) as [Hl|(H1 & H2 & H3)]; [by left |].
           right. repeat split; [done | | done].
           etrans; [exact H2 | apply parent_prefix].
Qed.

(** The same when the path may be there already, as a directory. *)
Lemma mkdir_parents_exist_ok p w :
  (forall q d, q `prefix_of` p -> node_at (files w) q <> Some (File d)) ->
  exists fs',
    mkdir true true p w =
    (Ret tt, World fs' (logged w) (threshold w) (echoed w) (answers w))
    /\ dirs_added p (files w) fs'
    /\ (node_at (files w) p = Some Dir -> fs' = files w).
Proof.
  intros Hfree. unfold mkdir.
  destruct (node_at (files w) p) as [[|d]|] eqn:Hp.
  - exists (files w). rewrite (mkdir_existing_dir _ true p w Hp).
    split; [by destruct w |]. split; [| done]. split; [done | by left].
  - by destruct (Hfree p d).
  - destruct (mkdir_parents_missing (length p) p true w) as (fs' & Hrun & Hadd);
      [done | done | done |].
    exists fs'. split; [done |]. split; [done | done].
Qed.

Lemma mkdir_plain_run n p w :
  mkdir_upto n false false p w =
  match node_at (files w) p with
  | Some _ => (Raise (FileExistsError p), w)
  | None =>
      match node_at (files w) (parent p) with
      | None => (Raise (not_found (files w) p), w)
      | Some (File _) => (Raise (NotADirectoryError p), w)
      | Some Dir =>
          (Ret tt, World (<[p := Dir]> (files w)) (logged w) (threshold w)
                         (echoed w) (answers w))
      end
  end.
Proof.
  assert (H : try_except (os_mkdir p) (fun e =>
      if is_FileNotFoundError e then None
      else if is_OSError e then
        Some (d ← is_dir p; if negb false || negb d then raise e else mret tt)
      else None) w = mkdir_upto n false false p w) by (by destruct n).
  rewrite <- H. unfold try_except, os_mkdir, not_found. unfold_M.
  destruct (node_at (files w) p) as [nd|]; [reflexivity |].
  destruct (node_at (files w) (parent p)) as [[|d]|]; [done | done |].
  by destruct (under_file (files w) p).
Qed.

Lemma copyfile_cases src dst w :
  (exists data,
     node_at (files w) src = Some (File data)
     /\ copyfile src dst w =
        (Ret tt, World (<[dst := File data]> (files w)) (logged w)
                       (threshold w) (echoed w) (answers w)))
  \/ (exists e, copyfile src dst w = (Raise e, w) /\ is_OSError e = true).
Proof.
  unfold copyfile. unfold_M.
  destruct (bool_decide (src = dst) && fs_exists (files w) src);
    [right; by eexists |].
  destruct (node_at (files w) src) as [[|data]|];
    [right; by eexists | | right; eexists; split; [done | apply not_found_OSError]].
  destruct (node_at (files w) dst) as [[|old]|]; [right; by eexists | left; by eexists |].
  destruct (node_at (files w) (parent dst)) as [[|old]|];
    [left; by eexists | right; by eexists
    | right; eexists; split; [done | apply not_found_OSError]].
Qed.

(** What is in the file system has its folder there, as a directory. *)
Definition tree_shaped (fs : gmap path node) : bool :=
  forallb (fun p => fs_is_dir fs (parent p)) (map_to_list fs).*1.

Lemma tree_shaped_parent fs p :
  tree_shaped fs = true -> fs_exists fs p = true ->
  fs_is_dir fs (parent p) = true.
Proof.
  intros Ht He. destruct p as [|x p]; [done |].
  unfold fs_exists in He. change (node_at fs (x :: p)) with (fs !! (x :: p)) in He.
  destruct (fs !! (x :: p)) as [n|] eqn:Hn; [| done].
  unfold tree_shaped in Ht. rewrite forallb_forall in Ht. apply Ht.
  apply list_elem_of_In, list_elem_of_fmap. exists (x :: p, n).
  split; [done |]. by apply elem_of_map_to_list.
Qed.

Lemma below_parent q p : below q p -> q `prefix_of` parent p.
Proof.
  intros [[k ->] Hne]. unfold parent.
  destruct (decide (k = [])) as [->|Hk]; [by rewrite app_nil_r in Hne |].
  rewrite removelast_app by done. by apply prefix_app_r.
Qed.

(** Below a regular file there is nothing. *)
Lemma tree_shaped_under_file fs q d :
  tree_shaped fs = true -> node_at fs q = Some (File d) ->
  forall p, below q p -> node_at fs p = None.
Proof.
  intros Ht Hq p. induction p as [|x p IH] using rev_ind; intros Hb.
  - destruct Hb as [Hpre%prefix_nil_inv Hne]. by subst.
  - destruct (node_at fs (p ++ [x])) as [n|] eqn:Hn; [| done]. exfalso.
    assert (Hd : fs_is_dir fs p = true).
    { rewrite <- (removelast_last p x).
      apply (tree_shaped_parent fs (p ++ [x]) Ht). unfold fs_exists.
      by rewrite Hn. }
    pose proof (below_parent _ _ Hb) as Hpre. unfold parent in Hpre.
    rewrite removelast_last in Hpre. unfold fs_is_dir in Hd.
    destruct (decide (p = q)) as [->|Hqp]; [by rewrite Hq in Hd |].
    by rewrite IH in Hd.
Qed.

(** [Path.mkdir] does not get past a regular file on the way: the error of
    [os.mkdir] leaves it, whatever [parents] and [exist_ok] are. *)
Lemma mkdir_blocked n parents exist_ok p q d w :
  tree_shaped (files w) = true ->
  q `prefix_of` p ->
  node_at (files w) q = Some (File d) ->
  exists e,
    mkdir_upto n parents exist_ok p w = (Raise e, w) /\ is_OSError e = true.
Proof.
  intros Ht Hq Hd.
  assert (Hos : exists e, os_mkdir p w = (Raise e, w) /\ is_OSError e = true
                          /\ is_FileNotFoundError e = false).
  { unfold os_mkdir. unfold_M. destruct (decide (p = q)) as [->|Hne].
    - rewrite Hd. by eexists.
    - rewrite (tree_shaped_under_file _ _ _ Ht Hd p) by done.
      pose proof (below_parent q p (conj Hq Hne)) as Hpre.
      destruct (decide (parent p = q)) as [->|Hne2].
      + rewrite Hd. by eexists.
      + rewrite (tree_shaped_under_file _ _ _ Ht Hd (parent p)) by done.
        unfold not_found. rewrite (under_file_true _ p q d) by done.
        by eexists. }
  destruct Hos as (e & Hos & He & Hnf).
  assert (Hdir : fs_is_dir (files w) p = false).
  { unfold fs_is_dir. destruct (decide (p = q)) as [->|Hne]; [by rewrite Hd |].
    by rewrite (tree_shaped_under_file _ _ _ Ht Hd p). }
  exists e. split; [| done].
  destruct n; cbn [mkdir_upto]; unfold try_except; rewrite Hos, Hnf, He;
    unfold_M; rewrite Hdir; by rewrite orb_true_r.
Qed.

(** ** Restoring *)

Definition restoring (backup_path original_path : path) : log_record :=
  LogRecord INFO
    ("Restoring file " +:+ quoted "%s" +:+ " to " +:+ quoted "%s" +:+ ".")
    [APath backup_path; APath original_path] false.

Definition unable_to_restore (original_path : path) : log_record :=
  LogRecord ERROR ("Unable to restore file " +:+ quoted "%s")
    [APath original_path] true.

Definition identical_skipping (backup_path original_path : path) : log_record :=
  LogRecord WARNING
    ("Files " +:+ quoted "%s" +:+ " and " +:+ quoted "%s"
     +:+ " are identical, skipping.")
    [APath backup_path; APath original_path] false.

Lemma restore_item_directory game_path backup_path item rel w :
  relative_to item backup_path = Some rel ->
  fs_is_dir (files w) (joinpath game_path rel) = true ->
  restore_item game_path backup_path item w = (Ret tt, w).
Proof.
  intros Hrel Hdir. unfold restore_item. rewrite Hrel.
  unfold mbind at 1, M_bind at 1, is_dir at 1.
  unfold mbind at 1, M_bind at 1, get_files at 1, mret at 1, M_ret at 1.
  rewrite Hdir. unfold mkdir. apply mkdir_existing_dir.
  unfold fs_is_dir in Hdir.
  by destruct (node_at (files w) (joinpath game_path rel)) as [[|d]|].
Qed.

(** The loop body of [restore_files] for an entry whose place in the game
    folder is no directory, when no file stands in the way of the folders
    to that place: the folders are made, and one record is logged, for the
    copy, for the skip or for the failure. *)
Lemma restore_item_cases game_path backup_path item rel w :
  relative_to item backup_path = Some rel ->
  fs_is_dir (files w) (joinpath game_path rel) = false ->
  (forall q d, q `prefix_of` parent (joinpath game_path rel) ->
               node_at (files w) q <> Some (File d)) ->
  exists fs1,
    dirs_added (parent (joinpath game_path rel)) (files w) fs1
    /\ (node_at (files w) (parent (joinpath game_path rel)) = Some Dir ->
        fs1 = files w)
    /\ node_at fs1 (joinpath game_path rel)
       = node_at (files w) (joinpath game_path rel)
    /\ restore_item game_path backup_path item w =
       (Ret tt,
        if bool_decide (item = joinpath game_path rel) && fs_exists fs1 item
        then World fs1
               (logged w ++ [identical_skipping backup_path (joinpath game_path rel)])
               (threshold w) (echoed w) (answers w)
        else
          match node_at fs1 item with
          | Some (File data) =>
              World (<[joinpath game_path rel := File data]> fs1)
                (logged w ++ [restoring backup_path (joinpath game_path rel)])
                (threshold w) (echoed w) (answers w)
          | _ =>
              World fs1
                (logged w ++ [unable_to_restore (joinpath game_path rel)])
                (threshold w) (echoed w) (answers w)
          end).
Proof.
  intros Hrel Hdir Hfree. unfold restore_item. rewrite Hrel.
  set (target := joinpath game_path rel) in *.
  destruct (mkdir_parents_exist_ok (parent target) w Hfree)
    as (fs1 & Hrun & Hadd & Hsame).
  assert (Htne : target <> []) by (intros He; by rewrite He in Hdir).
  assert (Ht1 : node_at fs1 target = node_at (files w) target).
  { destruct Hadd as [_ Hadd].
    destruct (Hadd target) as [H|(_ & Hp & _)]; [done |].
    by destruct (not_prefix_parent target Htne). }
  assert (Hp1 : node_at fs1 (parent target) = Some Dir) by apply Hadd.
  exists fs1. split; [done |]. split; [done |]. split; [done |].
  unfold mbind at 1, M_bind at 1, is_dir at 1.
  unfold mbind at 1, M_bind at 1, get_files at 1, mret at 1, M_ret at 1.
  rewrite Hdir. unfold mbind at 1, M_bind at 1. rewrite Hrun.
  unfold try_except, copyfile. unfold_M.
  cbn [files logged threshold echoed answers].
  destruct (bool_decide (item = target) && fs_exists fs1 item); [reflexivity |].
  destruct (node_at fs1 item) as [[|data]|]; [reflexivity | |].
  - rewrite Ht1, Hp1. unfold fs_is_dir in Hdir.
    by destruct (node_at (files w) target) as [[|old]|].
  - unfold not_found. by destruct (under_file fs1 item).
Qed.

(** C7 as the code has it.  [restore_files] compares no contents.  For a
    regular file of the backup, the loop body does nothing when a directory
    is at the file's place in the game folder.  Otherwise it makes the
    folders to that place and copies the file there, onto whatever regular
    file is there, also one with the same bytes, and logs the copy as a
    restore; it skips the copy, with the warning, only when the entry and
    its place are one and the same file.  When a regular file stands where
    one of the folders is needed, in a file system in which what is there
    has its folder there, the error of the [mkdir] leaves the loop and
    nothing is copied or logged. *)
Theorem restore_item_copies game_path backup_path item rel data w :
  relative_to item backup_path = Some rel ->
  node_at (files w) item = Some (File data) ->
  (fs_is_dir (files w) (joinpath game_path rel) = true ->
   restore_item game_path backup_path item w = (Ret tt, w))
  /\ (fs_is_dir (files w) (joinpath game_path rel) = false ->
      (forall q d, q `prefix_of` parent (joinpath game_path rel) ->
                   node_at (files w) q <> Some (File d)) ->
      exists fs1,
        dirs_added (parent (joinpath game_path rel)) (files w) fs1
        /\ (node_at (files w) (parent (joinpath game_path rel)) = Some Dir ->
            fs1 = files w)
        /\ restore_item game_path backup_path item w =
           if bool_decide (item = joinpath game_path rel)
           then (Ret tt,
                 World fs1
                   (logged w
                    ++ [identical_skipping backup_path (joinpath game_path rel)])
                   (threshold w) (echoed w) (answers w))
           else (Ret tt,
                 World (<[joinpath game_path rel := File data]> fs1)
                   (logged w ++ [restoring backup_path (joinpath game_path rel)])
                   (threshold w) (echoed w) (answers w)))
  /\ (fs_is_dir (files w) (joinpath game_path rel) = false ->
      tree_shaped (files w) = true ->
      (exists q d, q `prefix_of` parent (joinpath game_path rel)
                   /\ node_at (files w) q = Some (File d)) ->
      exists e,
        restore_item game_path backup_path item w = (Raise e, w)
        /\ is_OSError e = true).
Proof.
  intros Hrel Hitem. split; [| split].
  - by apply restore_item_directory.
  - intros Hdir Hfree.
    destruct (restore_item_cases game_path backup_path item rel w Hrel Hdir Hfree)
      as (fs1 & Hadd & Hsame & _ & Hrun).
    exists fs1. split; [done |]. split; [done |]. rewrite Hrun.
    assert (Hi1 : node_at fs1 item = Some (File data)).
    { destruct Hadd as [_ Hadd].
      destruct (Hadd item) as [->|(Hn & _)]; [done | congruence]. }
    unfold fs_exists. rewrite Hi1, andb_true_r. by case_bool_decide.
  - intros Hdir Ht (q & d & Hq & Hd). unfold restore_item. rewrite Hrel.
    unfold mbind at 1, M_bind at 1, is_dir at 1.
    unfold mbind at 1, M_bind at 1, get_files at 1, mret at 1, M_ret at 1.
    rewrite Hdir. unfold mbind at 1, M_bind at 1, mkdir.
    destruct (mkdir_blocked (length (parent (joinpath game_path rel))) true true
                _ q d w Ht Hq Hd) as (e & -> & He).
    by exists e.
Qed.

Definition identical_backup : gmap path node :=
  list_to_map
    [ (["g"], Dir);
      (["g"; "a.txt"], File (txt "v1"));
      (["g"; "Backup"], Dir);
      (["g"; "Backup"; "a.txt"], File (txt "v1")) ].

Lemma restore_item_copies_witness :
  exists fs1,
    dirs_added (parent (joinpath ["g"] ["a.txt"]))
               (files (world_of identical_backup)) fs1
    /\ (node_at (files (world_of identical_backup))
                (parent (joinpath ["g"] ["a.txt"])) = Some Dir ->
        fs1 = files (world_of identical_backup))
    /\ restore_item ["g"] ["g"; "Backup"] ["g"; "Backup"; "a.txt"]
                    (world_of identical_backup) =
       if bool_decide (["g"; "Backup"; "a.txt"] = joinpath ["g"] ["a.txt"])
       then (Ret tt,
             World fs1
               (logged (world_of identical_backup)
                ++ [identical_skipping ["g"; "Backup"] (joinpath ["g"] ["a.txt"])])
               (threshold (world_of identical_backup))
               (echoed (world_of identical_backup))
               (answers (world_of identical_backup)))
       else (Ret tt,
             World (<[joinpath ["g"] ["a.txt"] := File (txt "v1")]> fs1)
               (logged (world_of identical_backup)
                ++ [restoring ["g"; "Backup"] (joinpath ["g"] ["a.txt"])])
               (threshold (world_of identical_backup))
               (echoed (world_of identical_backup))
               (answers (world_of identical_backup))).
Proof.
  apply (restore_item_copies ["g"] ["g"; "Backup"] ["g"; "Backup"; "a.txt"]
           ["a.txt"] (txt "v1") (world_of identical_backup)).
  - reflexivity.
  - reflexivity.
  - reflexivity.
  - intros q d [k Hk]. change (parent (joinpath _ _)) with ["g"] in Hk.
    destruct q as [|a [|? ?]]; simpl in Hk; simplify_eq; vm_compute; discriminate.
Defined.

(** C7 as the specification has it fails: the game file has the bytes of its
    backup, and the restore copies it and logs the copy, not a skip. *)
Lemma restore_copies_identical_file :
  restore_files ["g"] ["g"; "Backup"] (world_of identical_backup)
  = (Ret tt,
     World identical_backup [restoring ["g"; "Backup"] ["g"; "a.txt"]]
           INFO [] []).
Proof. vm_compute. reflexivity. Qed.

(** ** Backing up *)

(** The place of [original_file] in the backup. *)
Definition mirror (backup_path original_file : path) : path :=
  joinpath backup_path
    (default [] (relative_to original_file (parent backup_path))).

Definition copying (original_file destination_path : path) : log_record :=
  LogRecord DEBUG
    ("Copying file " +:+ quoted "%s" +:+ " to " +:+ quoted "%s")
    [APath original_file; APath destination_path] false.

(** A regular file outside the backup whose entry in the backup is there. *)
Definition has_entry (fs : gmap path node) (backup_path f : path) : Prop :=
  is_Some (relative_to f (parent backup_path))
  /\ ~ backup_path `prefix_of` f
  /\ (exists data, node_at fs f = Some (File data))
  /\ (exists old, node_at fs (mirror backup_path f) = Some (File old))
  /\ node_at fs (parent (mirror backup_path f)) = Some Dir.

Lemma backup_file_overwrites backup_path f data w :
  has_entry (files w) backup_path f ->
  node_at (files w) f = Some (File data) ->
  backup_file backup_path f w =
  (Ret tt,
   World (<[mirror backup_path f := File data]> (files w))
         (logged w ++ [copying f (mirror backup_path f)])
         (threshold w) (echoed w) (answers w)).
Proof.
  intros ([rel Hrel] & Hout & _ & [old Hold] & Hparent) Hf.
  unfold backup_file, mirror in *. rewrite Hrel in *.
  cbn [default from_option id] in *.
  set (d := joinpath backup_path rel) in *.
  assert (Hne : f <> d).
  { intros ->. apply Hout. by apply prefix_app_r. }
  unfold copyfile. unfold_M. unfold fs_exists, fs_is_dir.
  cbn [files logged threshold echoed answers].
  rewrite Hparent. cbn [negb]. rewrite Hf.
  rewrite bool_decide_eq_false_2 by done. cbn [andb].
  rewrite ?Hf, Hold. reflexivity.
Qed.

Lemma mirror_inj fs backup_path f g :
  has_entry fs backup_path f -> has_entry fs backup_path g ->
  mirror backup_path f = mirror backup_path g -> f = g.
Proof.
  intros ([rf Hf] & _) ([rg Hg] & _). unfold mirror, joinpath.
  rewrite Hf, Hg. cbn [default from_option id]. intros H%app_inv_head.
  apply relative_to_app in Hf, Hg. congruence.
Qed.

Lemma has_entry_after fs backup_path f data g :
  has_entry fs backup_path f ->
  has_entry fs backup_path g ->
  has_entry (<[mirror backup_path f := File data]> fs) backup_path g.
Proof.
  intros Hf Hg.
  destruct Hf as (_ & _ & _ & [oldf Holdf] & _).
  destruct Hg as (Hrel & Hout & [dg Hdg] & [oldg Holdg] & Hparent).
  assert (Hpre : backup_path `prefix_of` mirror backup_path f)
    by apply prefix_app_r, reflexivity.
  repeat split; try done.
  - exists dg. rewrite node_at_insert_ne; [done |]. by intros <-.
  - destruct (decide (mirror backup_path f = mirror backup_path g)) as [He|Hne].
    + exists data. rewrite <- He.
      destruct (mirror backup_path f); [discriminate Holdf |]. simpl.
      by rewrite lookup_insert_eq.
    + exists oldg. by rewrite node_at_insert_ne.
  - rewrite node_at_insert_ne; [done |]. intros He. congruence.
Qed.

Lemma backup_files_again backup_path file_list w :
  Forall (has_entry (files w) backup_path) file_list ->
  exists w',
    backup_files file_list backup_path w = (Ret tt, w')
    /\ logged w' =
       logged w ++ map (fun f => copying f (mirror backup_path f)) file_list
    /\ (forall f data,
          f ∈ file_list -> node_at (files w) f = Some (File data) ->
          files w' !! mirror backup_path f = Some (File data))
    /\ (forall q,
          (forall f, f ∈ file_list -> mirror backup_path f <> q) ->
          files w' !! q = files w !! q).
Proof.
  revert w. induction file_list as [|x l IH]; intros w Hall.
  - exists w. repeat split.
    + simpl. by rewrite app_nil_r.
    + intros f data Hin. by apply elem_of_nil in Hin.
  - apply Forall_cons in Hall as [Hx Hl].
    pose proof Hx as (_ & Hxout & [dx Hdx] & _).
    pose proof (backup_file_overwrites _ _ _ _ Hx Hdx) as Hstep.
    set (w1 := World (<[mirror backup_path x := File dx]> (files w))
                     (logged w ++ [copying x (mirror backup_path x)])
                     (threshold w) (echoed w) (answers w)) in *.
    assert (Hl1 : Forall (has_entry (files w1) backup_path) l).
    { eapply Forall_impl; [exact Hl |]. intros g Hg.
      by apply has_entry_after. }
    destruct (IH w1 Hl1) as (w' & Hrun & Hlog & Hent & Hother).
    assert (Hpre : backup_path `prefix_of` mirror backup_path x)
      by apply prefix_app_r, reflexivity.
    exists w'. repeat split.
    + unfold backup_files in *. cbn [for_each]. unfold mbind, M_bind.
      by rewrite Hstep.
    + rewrite Hlog. cbn [logged w1 map]. by rewrite <- app_assoc.
    + intros f data Hin Hf.
      destruct (decide (f ∈ l)) as [Hfl|Hfl].
      * apply Hent; [done |]. cbn [files w1].
        rewrite node_at_insert_ne; [done |].
        rewrite Forall_forall in Hl. destruct (Hl f Hfl) as (_ & Hfout & _).
        by intros <-.
      * apply elem_of_cons in Hin as [->|Hin]; [| done].
        rewrite Hother.
        -- cbn [files w1]. rewrite lookup_insert_eq. congruence.
        -- intros g Hg Heq. rewrite Forall_forall in Hl.
           apply (mirror_inj _ _ _ _ (Hl g Hg) Hx) in Heq. by subst.
    + intros q Hq. rewrite Hother.
      * cbn [files w1]. rewrite lookup_insert_ne; [done |].
        apply Hq, list_elem_of_here.
      * intros f Hf. by apply Hq, list_elem_of_further.
Qed.

(** For a directory whose mirror is there already, [mkdir] fails. *)
Lemma backup_file_mirrored_directory backup_path f w :
  node_at (files w) f = Some Dir ->
  parent backup_path `prefix_of` f ->
  fs_exists (files w) (mirror backup_path f) = true ->
  node_at (files w) (parent (mirror backup_path f)) = Some Dir ->
  backup_file backup_path f w
  = (Raise (FileExistsError (mirror backup_path f)), w).
Proof.
  intros Hf [rel ->] Hm Hparent. unfold backup_file, mirror in *.
  rewrite relative_to_join in *. cbn [default from_option id] in *.
  set (d := joinpath backup_path rel) in *.
  unfold_M. unfold fs_exists, fs_is_dir in *.
  rewrite Hparent. cbn [negb]. rewrite Hf. unfold mkdir.
  rewrite mkdir_plain_run. by destruct (node_at (files w) d).
Qed.

(** C2 as the code has it.  [backup_files] has no check for an entry that
    is there already.  A regular file of the list that the loop gets to,
    that is in the game folder and not in the backup, and whose entry is in
    the backup ([has_entry]), is copied onto the entry again: the
    entry takes the present content of the file, the copy is logged, and
    the loop goes on behind it.  So a call on a list of such files, which a
    second call on the same files is, returns with one copy logged per
    file, every entry at the present content of its file and nothing else
    changed.  At a directory of the list whose mirror is in the backup
    already the call stops with FileExistsError, and what is behind it in
    the list is not copied. *)
Theorem backup_files_overwrites backup_path :
  (forall pre f post data w w1,
     for_each (backup_file backup_path) pre w = (Ret tt, w1) ->
     has_entry (files w1) backup_path f ->
     node_at (files w1) f = Some (File data) ->
     backup_files (pre ++ f :: post) backup_path w
     = for_each (backup_file backup_path) post
         (World (<[mirror backup_path f := File data]> (files w1))
                (logged w1 ++ [copying f (mirror backup_path f)])
                (threshold w1) (echoed w1) (answers w1)))
  /\ (forall file_list w,
        Forall (has_entry (files w) backup_path) file_list ->
        exists w',
          backup_files file_list backup_path w = (Ret tt, w')
          /\ logged w' =
             logged w ++ map (fun f => copying f (mirror backup_path f)) file_list
          /\ (forall f data,
                f ∈ file_list -> node_at (files w) f = Some (File data) ->
                files w' !! mirror backup_path f = Some (File data))
          /\ (forall q,
                (forall f, f ∈ file_list -> mirror backup_path f <> q) ->
                files w' !! q = files w !! q))
  /\ (forall pre f post w w1,
        for_each (backup_file backup_path) pre w = (Ret tt, w1) ->
        node_at (files w1) f = Some Dir ->
        parent backup_path `prefix_of` f ->
        fs_exists (files w1) (mirror backup_path f) = true ->
        node_at (files w1) (parent (mirror backup_path f)) = Some Dir ->
        backup_files (pre ++ f :: post) backup_path w
        = (Raise (FileExistsError (mirror backup_path f)), w1)).
Proof.
  split; [| split].
  - intros pre f post data w w1 Hpre Hentry Hf. unfold backup_files.
    rewrite for_each_app, Hpre. cbn [for_each]. unfold mbind, M_bind.
    by rewrite (backup_file_overwrites _ _ _ _ Hentry Hf).
  - apply backup_files_again.
  - intros pre f post w w1 Hpre Hf Hin Hm Hparent. unfold backup_files.
    eapply for_each_raise_at; [exact Hpre |].
    by apply backup_file_mirrored_directory.
Qed.

Definition first_install : gmap path node :=
  list_to_map
    [ (["g"], Dir);
      (["g"; "a.txt"], File (txt "original"));
      (["g"; "Backup"], Dir) ].

Definition stale_backup : gmap path node :=
  list_to_map
    [ (["g"], Dir);
      (["g"; "a.txt"], File (txt "modded"));
      (["g"; "Backup"], Dir);
      (["g"; "Backup"; "a.txt"], File (txt "original")) ].

(** A game folder after a first backup of [a.txt] and [Scripts]: the file
    has been modded since, and [new.txt] has come. *)
Definition second_install : gmap path node :=
  list_to_map
    [ (["g"], Dir);
      (["g"; "a.txt"], File (txt "modded"));
      (["g"; "new.txt"], File (txt "new"));
      (["g"; "Scripts"], Dir);
      (["g"; "Backup"], Dir);
      (["g"; "Backup"; "a.txt"], File (txt "original"));
      (["g"; "Backup"; "Scripts"], Dir) ].

Lemma has_entry_a_txt fs :
  fs !! ["g"; "a.txt"] = Some (File (txt "modded")) ->
  fs !! ["g"; "Backup"; "a.txt"] = Some (File (txt "original")) ->
  fs !! ["g"; "Backup"] = Some Dir ->
  has_entry fs ["g"; "Backup"] ["g"; "a.txt"].
Proof.
  intros Hf He Hb.
  split; [by eexists |].
  split; [intros [k Hk]; discriminate Hk |].
  split; [by eexists |].
  split; [by eexists | exact Hb].
Qed.

Lemma backup_files_overwrites_witness :
  let w := world_of second_install in
  let w1 := (backup_files [["g"; "new.txt"]] ["g"; "Backup"] w).2 in
  let w2 := (backup_files [["g"; "a.txt"]] ["g"; "Backup"] w).2 in
  backup_files ([["g"; "new.txt"]] ++ ["g"; "a.txt"] :: []) ["g"; "Backup"] w
  = for_each (backup_file ["g"; "Backup"]) []
      (World (<[mirror ["g"; "Backup"] ["g"; "a.txt"] := File (txt "modded")]>
                (files w1))
             (logged w1 ++ [copying ["g"; "a.txt"]
                                    (mirror ["g"; "Backup"] ["g"; "a.txt"])])
             (threshold w1) (echoed w1) (answers w1))
  /\ (exists w',
        backup_files [["g"; "a.txt"]] ["g"; "Backup"] w = (Ret tt, w')
        /\ logged w' =
           logged w ++ map (fun f => copying f (mirror ["g"; "Backup"] f))
                           [["g"; "a.txt"]]
        /\ (forall f data,
              f ∈ [["g"; "a.txt"]] -> node_at (files w) f = Some (File data) ->
              files w' !! mirror ["g"; "Backup"] f = Some (File data))
        /\ (forall q,
              (forall f, f ∈ [["g"; "a.txt"]] -> mirror ["g"; "Backup"] f <> q) ->
              files w' !! q = files w !! q))
  /\ backup_files ([["g"; "a.txt"]] ++ ["g"; "Scripts"] :: [["g"; "new.txt"]])
                  ["g"; "Backup"] w
     = (Raise (FileExistsError (mirror ["g"; "Backup"] ["g"; "Scripts"])), w2).
Proof.
  cbv zeta.
  destruct (backup_files_overwrites ["g"; "Backup"]) as (Hfile & Hlist & Hdir).
  split; [| split].
  - apply Hfile.
    + vm_compute. reflexivity.
    + apply has_entry_a_txt; vm_compute; reflexivity.
    + vm_compute. reflexivity.
  - apply Hlist. constructor; [| constructor].
    apply has_entry_a_txt; vm_compute; reflexivity.
  - apply Hdir.
    + vm_compute. reflexivity.
    + vm_compute. reflexivity.
    + by exists ["Scripts"].
    + vm_compute. reflexivity.
    + vm_compute. reflexivity.
Defined.

(** C2 as the specification has it fails: the first call snapshots the
    original file; the file is then modded; the second call on the same
    file set replaces the snapshot by the modded file. *)
Lemma backup_overwrites_snapshot :
  let after_first :=
    (backup_files [["g"; "a.txt"]] ["g"; "Backup"] (world_of first_install)).2 in
  let modded :=
    world_of (<[["g"; "a.txt"] := File (txt "modded")]> (files after_first)) in
  let after_second :=
    (backup_files [["g"; "a.txt"]] ["g"; "Backup"] modded).2 in
  files after_first !! ["g"; "Backup"; "a.txt"] = Some (File (txt "original"))
  /\ files after_second !! ["g"; "Backup"; "a.txt"] = Some (File (txt "modded")).
Proof. vm_compute. split; reflexivity. Qed.

(** ** Cleaning *)

(** The scan of [sub_from] needs no more fuel than there are characters
    left, which is what [clean] gives it. *)
Lemma sub_from_fuel n : forall m c,
  length (rest c) <= n -> length (rest c) <= m ->
  sub_from n c = sub_from m c.
Proof.
  induction n as [|n IH]; intros m c Hn Hm.
  - destruct c as [p [|x t]]; [by destruct m | simpl in Hn; lia].
  - destruct m as [|m]; [destruct c as [p [|x t]]; [done | simpl in Hm; lia] |].
    cbn [sub_from]. destruct c as [p [|x t]]; cbn [rest] in *; [done |].
    assert (Htail : x :: sub_from n (Cursor (Some x) t)
                    = x :: sub_from m (Cursor (Some x) t)).
    { f_equal. apply IH; simpl in *; lia. }
    destruct (match_at (Cursor p (x :: t))) as [c'|]; [| exact Htail].
    case_bool_decide as Hlt; [| exact Htail].
    apply IH; simpl in *; lia.
Qed.

(** *** The three alternatives, one position at a time *)

Lemma match_at_unfold c :
  match_at c =
  or_else (or_else (rmatch single_line_comment Some c)
                   (rmatch multiline_comment Some c))
          (rmatch leading_whitespace Some c).
Proof. reflexivity. Qed.

Definition starts_with (a b : ascii) (s : text) : bool :=
  match s with
  | x :: y :: _ => bool_decide (x = a) && bool_decide (y = b)
  | _ => false
  end.

Lemma single_line_comment_none p s :
  starts_with ":" ":" s = false ->
  starts_with ":" ":" (tail s) = false ->
  rmatch single_line_comment Some (Cursor p s) = None.
Proof.
  intros H0 H1. unfold single_line_comment. cbn [rmatch].
  unfold or_else, eat. cbn [rest].
  destruct s as [|x [|y [|z t]]]; cbn [starts_with tail] in *;
    repeat (case_bool_decide; subst; cbn [andb negb] in *; try discriminate);
    repeat (destruct (isspace _); try done);
    repeat (case_bool_decide; subst; cbn [andb negb] in *; try done);
    done.
Qed.

Lemma multiline_comment_no_opener p s :
  starts_with "-" ":" s = false ->
  rmatch multiline_comment Some (Cursor p s) = None.
Proof.
  intros H0. unfold multiline_comment. cbn [rmatch]. unfold eat. cbn [rest].
  destruct s as [|x [|y t]]; cbn [starts_with] in *; try done;
    repeat (case_bool_decide; subst; cbn [andb] in *; try done).
Qed.

(** The text has the character [a] nowhere followed by [b]. *)
Fixpoint lacks (a b : ascii) (s : text) : bool :=
  match s with
  | [] => true
  | _ :: t => negb (starts_with a b s) && lacks a b t
  end.

Lemma lacks_head a b s : lacks a b s = true -> starts_with a b s = false.
Proof.
  destruct s; [done |]. cbn [lacks]. intros [H _]%andb_true_iff.
  by apply negb_true_iff.
Qed.

Lemma lacks_tail a b s : lacks a b s = true -> lacks a b (tail s) = true.
Proof. destruct s; [done |]. cbn [lacks tail]. by intros [_ H]%andb_true_iff. Qed.

(** What stands behind the lazy repetition in the multiline alternative. *)
Definition closing : cursor -> option cursor :=
  rmatch (Lit ":") (rmatch (Lit "-") (rmatch (Opt Space) Some)).

Lemma lazy_any_nil k p :
  rmatch (LazyStar (Dot ||| Space)) k (Cursor p []) = k (Cursor p []).
Proof. reflexivity. Qed.

Lemma lazy_any_cons k p x t :
  rmatch (LazyStar (Dot ||| Space)) k (Cursor p (x :: t)) =
  or_else (k (Cursor p (x :: t)))
    (or_else
       (if negb (bool_decide (x = LF))
        then rmatch (LazyStar (Dot ||| Space)) k (Cursor (Some x) t) else None)
       (if isspace x
        then rmatch (LazyStar (Dot ||| Space)) k (Cursor (Some x) t) else None)).
Proof. reflexivity. Qed.

Lemma closing_none p s :
  starts_with ":" "-" s = false -> closing (Cursor p s) = None.
Proof.
  intros H0. unfold closing. cbn [rmatch]. unfold eat. cbn [rest].
  destruct s as [|x [|y t]]; cbn [starts_with] in *; try done;
    repeat (case_bool_decide; subst; cbn [andb] in *; try done).
Qed.

(** The lazy repetition finds no end when no [:-] follows. *)
Lemma lazy_any_unclosed s : forall p,
  lacks ":" "-" s = true ->
  rmatch (LazyStar (Dot ||| Space)) closing (Cursor p s) = None.
Proof.
  induction s as [|x t IH]; intros p H.
  - rewrite lazy_any_nil. by apply closing_none.
  - cbn [lacks] in H. apply andb_true_iff in H as [H0 Ht].
    apply negb_true_iff in H0.
    rewrite lazy_any_cons, (closing_none _ _ H0), (IH _ Ht).
    cbn [or_else]. by destruct (negb _), (isspace x).
Qed.

Lemma multiline_comment_opened p body :
  rmatch multiline_comment Some (Cursor p ("-" :: ":" :: body)%char) =
  rmatch (LazyStar (Dot ||| Space)) closing (Cursor (Some ":"%char) body).
Proof. reflexivity. Qed.

(** An opening [-:] with no [:-] behind it is no match. *)
Lemma multiline_comment_unclosed p s :
  lacks ":" "-" (tail (tail s)) = true ->
  rmatch multiline_comment Some (Cursor p s) = None.
Proof.
  intros H. destruct (starts_with "-" ":" s) eqn:Hs.
  - destruct s as [|x [|y body]]; try discriminate.
    cbn [starts_with] in Hs. apply andb_true_iff in Hs as [Hx Hy].
    apply bool_decide_eq_true in Hx, Hy. subst.
    rewrite multiline_comment_opened. by apply lazy_any_unclosed.
  - by apply multiline_comment_no_opener.
Qed.

(** The end of the run of whitespace at the position. *)
Fixpoint skip_ws (p : option ascii) (s : text) : cursor :=
  match s with
  | x :: t => if isspace x then skip_ws (Some x) t else Cursor p s
  | [] => Cursor p s
  end.

Lemma star_space_cons k p x t :
  rmatch (Star Space) k (Cursor p (x :: t)) =
  or_else (if isspace x then rmatch (Star Space) k (Cursor (Some x) t) else None)
          (k (Cursor p (x :: t))).
Proof. reflexivity. Qed.

Lemma star_space_run s : forall p,
  rmatch (Star Space) Some (Cursor p s) = Some (skip_ws p s).
Proof.
  induction s as [|x t IH]; intros p; [reflexivity |].
  rewrite star_space_cons. cbn [skip_ws].
  destruct (isspace x); [by rewrite IH | reflexivity].
Qed.

Lemma leading_whitespace_run p s :
  rmatch leading_whitespace Some (Cursor p s) =
  if at_bol (Cursor p s) then
    match s with
    | x :: t => if isspace x then Some (skip_ws (Some x) t) else None
    | [] => None
    end
  else None.
Proof.
  unfold leading_whitespace, Plus.
  change (rmatch (Bol · (Space · Star Space)) Some (Cursor p s))
    with (if at_bol (Cursor p s)
          then eat isspace (rmatch (Star Space) Some) (Cursor p s) else None).
  destruct (at_bol _); [| reflexivity].
  unfold eat. cbn [rest]. destruct s as [|x t]; [reflexivity |].
  destruct (isspace x); [apply star_space_run | reflexivity].
Qed.

(** What stands behind [::] in the single-line alternative: the rest of the
    line, then the end of the line with one whitespace character. *)
Definition end_of_line : cursor -> option cursor :=
  rmatch Eol (rmatch (Opt Space) Some).

Definition colons : cursor -> option cursor :=
  rmatch (Lit ":") (rmatch (Lit ":") (rmatch (LazyStar Dot) end_of_line)).

Lemma single_line_unfold c :
  rmatch single_line_comment Some c = or_else (eat isspace colons c) (colons c).
Proof. reflexivity. Qed.

Definition head_space (s : text) : bool :=
  match s with
  | x :: _ => isspace x
  | [] => false
  end.

Lemma single_line_comment_none_head p x t :
  x <> ":"%char ->
  isspace x = false \/ starts_with ":" ":" t = false ->
  rmatch single_line_comment Some (Cursor p (x :: t)) = None.
Proof.
  intros Hx H. rewrite single_line_unfold. unfold eat at 1. cbn [rest].
  assert (H0 : colons (Cursor p (x :: t)) = None).
  { unfold colons. cbn [rmatch]. unfold eat at 1. cbn [rest].
    by rewrite bool_decide_eq_false_2. }
  rewrite H0. destruct (isspace x) eqn:Hs; [| done].
  destruct H as [H|H]; [done |].
  unfold colons. cbn [rmatch]. unfold eat. cbn [rest].
  destruct t as [|y [|z t]]; cbn [starts_with] in H; try done;
    repeat (case_bool_decide; subst; cbn [andb] in *; try done).
Qed.

(** *** Texts without a comment *)

(** No [::], and not both a [-:] and a [:-]: neither comment alternative
    has a match anywhere in such a text. *)
Definition quiet (s : text) : bool :=
  lacks ":" ":" s && (lacks "-" ":" s || lacks ":" "-" s).

(** No [-:] of the text has a [:-] behind it: no multiline comment of the
    text is closed. *)
Fixpoint open_ended (s : text) : bool :=
  match s with
  | [] => true
  | _ :: t =>
      (negb (starts_with "-" ":" s) || lacks ":" "-" (tail t)) && open_ended t
  end.

(** No [::] and no closed multiline comment: neither comment alternative
    has a match anywhere in such a text. *)
Definition calm (s : text) : bool := lacks ":" ":" s && open_ended s.

Lemma lacks_open_ended s : lacks ":" "-" s = true -> open_ended s = true.
Proof.
  induction s as [|x t IH]; intros H; [done |]. cbn [open_ended].
  rewrite (IH (lacks_tail _ _ _ H)), andb_true_r.
  apply orb_true_iff. right. by do 2 apply lacks_tail in H.
Qed.

Lemma no_opener_open_ended s : lacks "-" ":" s = true -> open_ended s = true.
Proof.
  induction s as [|x t IH]; intros H; [done |]. cbn [open_ended].
  rewrite (IH (lacks_tail _ _ _ H)), andb_true_r.
  by rewrite (lacks_head _ _ _ H).
Qed.

Lemma quiet_calm s : quiet s = true -> calm s = true.
Proof.
  unfold quiet, calm. intros [H1 H2]%andb_true_iff. rewrite H1. cbn [andb].
  apply orb_true_iff in H2 as [H2|H2];
    [by apply no_opener_open_ended | by apply lacks_open_ended].
Qed.

Lemma calm_tail s : calm s = true -> calm (tail s) = true.
Proof.
  unfold calm. intros [H1 H2]%andb_true_iff. apply andb_true_iff.
  split; [by apply lacks_tail |]. destruct s as [|x t]; [done |].
  cbn [open_ended tail] in *. by apply andb_true_iff in H2 as [_ H2].
Qed.

Lemma calm_skip_ws s : forall p,
  calm s = true -> calm (rest (skip_ws p s)) = true.
Proof.
  induction s as [|x t IH]; intros p H; [done |]. cbn [skip_ws].
  destruct (isspace x); [| done]. apply IH. by apply (calm_tail (x :: t)).
Qed.

Lemma match_at_calm p s :
  calm s = true ->
  match_at (Cursor p s) = rmatch leading_whitespace Some (Cursor p s).
Proof.
  unfold calm. intros [H1 H2]%andb_true_iff. rewrite match_at_unfold.
  rewrite single_line_comment_none;
    [| by apply lacks_head | by apply lacks_head, lacks_tail].
  destruct s as [|x t]; [done |]. cbn [open_ended] in H2.
  apply andb_true_iff in H2 as [H2 _]. apply orb_true_iff in H2 as [H2|H2].
  - rewrite multiline_comment_no_opener; [done | by apply negb_true_iff].
  - by rewrite multiline_comment_unclosed.
Qed.

(** What cleaning does to a text without a comment: the whitespace at the
    start of a line goes, up to the first character that is none. *)
Fixpoint strip (bol : bool) (s : text) : text :=
  match s with
  | [] => []
  | x :: t =>
      if isspace x then
        if bol then strip true t else x :: strip (bool_decide (x = LF)) t
      else x :: strip false t
  end.

Lemma skip_ws_length s : forall p, length (rest (skip_ws p s)) <= length s.
Proof.
  induction s as [|x t IH]; intros p; cbn [skip_ws]; [done |].
  destruct (isspace x); [| done]. specialize (IH (Some x)). simpl. lia.
Qed.

Lemma strip_skip_ws s : forall p b,
  strip b (rest (skip_ws p s)) = strip true s.
Proof.
  induction s as [|x t IH]; intros p b; cbn [skip_ws]; [done |].
  destruct (isspace x) eqn:Hx; cbn [rest strip]; rewrite Hx; [apply IH | done].
Qed.

Lemma not_space_not_LF x : isspace x = false -> bool_decide (x = LF) = false.
Proof. intros H. apply bool_decide_eq_false. by intros ->. Qed.

Lemma sub_from_strip n : forall p s,
  length s <= n ->
  calm s = true ->
  sub_from n (Cursor p s) = strip (at_bol (Cursor p s)) s.
Proof.
  induction n as [|n IH]; intros p s Hn Hq.
  - by destruct s; [| simpl in Hn; lia].
  - destruct s as [|x t]; [done |].
    cbn [sub_from rest]. rewrite (match_at_calm _ _ Hq), leading_whitespace_run.
    assert (Hstep : x :: sub_from n (Cursor (Some x) t)
                    = x :: strip (bool_decide (x = LF)) t).
    { f_equal. apply IH; [simpl in Hn; lia | by apply (calm_tail (x :: t))]. }
    cbn [strip]. destruct (at_bol (Cursor p (x :: t))).
    + destruct (isspace x) eqn:Hx.
      * pose proof (skip_ws_length t (Some x)) as Hlen.
        rewrite bool_decide_eq_true_2 by (simpl; lia).
        destruct (skip_ws (Some x) t) as [p' s'] eqn:Hskip.
        rewrite IH.
        -- rewrite <- (strip_skip_ws t (Some x) (at_bol (Cursor p' s'))).
           by rewrite Hskip.
        -- simpl in *. lia.
        -- pose proof (calm_skip_ws t (Some x)
                         (calm_tail (x :: t) Hq)) as Hq'.
           by rewrite Hskip in Hq'.
      * rewrite Hstep. by rewrite (not_space_not_LF _ Hx).
    + rewrite Hstep. destruct (isspace x) eqn:Hx; [done |].
      by rewrite (not_space_not_LF _ Hx).
Qed.

Lemma clean_calm s : calm s = true -> clean s = strip true s.
Proof. intros Hq. unfold clean. by rewrite sub_from_strip. Qed.

Lemma clean_quiet s : quiet s = true -> clean s = strip true s.
Proof. intros Hq. by apply clean_calm, quiet_calm. Qed.

(** No whitespace at the start of a line. *)
Fixpoint tidy (bol : bool) (s : text) : bool :=
  match s with
  | [] => true
  | x :: t => negb (bol && isspace x) && tidy (bool_decide (x = LF)) t
  end.

Lemma strip_tidy s : forall b, tidy b s = true -> strip b s = s.
Proof.
  induction s as [|x t IH]; intros b H; [done |].
  cbn [tidy strip] in *. apply andb_true_iff in H as [H1 H2].
  destruct (isspace x) eqn:Hx.
  - destruct b; [done |]. f_equal. by apply IH.
  - f_equal. apply IH. by rewrite (not_space_not_LF _ Hx) in H2.
Qed.

Lemma tidy_strip s : forall b, tidy b (strip b s) = true.
Proof.
  induction s as [|x t IH]; intros b; [done |]. cbn [strip].
  destruct (isspace x) eqn:Hx.
  - destruct b; [apply IH |]. cbn [tidy andb negb]. apply IH.
  - cbn [tidy]. rewrite Hx, andb_false_r. cbn [negb andb].
    rewrite (not_space_not_LF _ Hx). apply IH.
Qed.

Lemma starts_with_strip a b x t :
  starts_with a b (x :: strip false t) = starts_with a b (x :: t).
Proof. destruct t as [|y t]; [done |]. cbn [strip]. by destruct (isspace y). Qed.

Lemma lacks_strip a b s : forall bol,
  a <> LF -> lacks a b s = true -> lacks a b (strip bol s) = true.
Proof.
  induction s as [|x t IH]; intros bol Ha H; [done |].
  pose proof (lacks_head _ _ _ H) as Hh.
  pose proof (lacks_tail _ _ _ H) as Ht. cbn [tail] in Ht.
  assert (Hkeep : forall b', lacks a b (strip b' t) = true -> (b' = false \/ x = LF) ->
                  lacks a b (x :: strip b' t) = true).
  { intros b' Hl Hb. cbn [lacks]. rewrite Hl, andb_true_r. apply negb_true_iff.
    destruct Hb as [->| ->].
    - by rewrite starts_with_strip.
    - destruct (strip b' t); [done |]. cbn [starts_with].
      by rewrite bool_decide_eq_false_2. }
  cbn [strip]. destruct (isspace x) eqn:Hx.
  - destruct bol; [by apply IH |].
    apply Hkeep; [by apply IH |].
    case_bool_decide; [by right | by left].
  - apply Hkeep; [by apply IH | by left].
Qed.

Lemma quiet_strip s bol : quiet s = true -> quiet (strip bol s) = true.
Proof.
  unfold quiet. intros [H1 H2]%andb_true_iff. apply andb_true_iff. split.
  - by apply lacks_strip.
  - apply orb_true_iff in H2 as [H2|H2]; apply orb_true_iff; [left | right];
      by apply lacks_strip.
Qed.

(** C8 as the code has it.  Cleaning is idempotent on the texts without a
    comment: no [::], and not both a [-:] and a [:-]. *)
Theorem clean_idempotent_without_comment T :
  quiet T = true -> clean (clean T) = clean T.
Proof.
  intros Hq. rewrite (clean_quiet T Hq).
  rewrite (clean_quiet _ (quiet_strip T true Hq)).
  apply strip_tidy, tidy_strip.
Qed.

Lemma clean_idempotent_without_comment_witness :
  clean (clean (lines_text ["  load 1 2"; ""; "   to x:y"; "-: open"]))
  = clean (lines_text ["  load 1 2"; ""; "   to x:y"; "-: open"]).
Proof.
  apply (clean_idempotent_without_comment
           (lines_text ["  load 1 2"; ""; "   to x:y"; "-: open"])).
  reflexivity.
Defined.

(** C8 as the specification has it fails: behind a closed comment one
    whitespace character goes with the comment, the next one only with a
    second cleaning, when it has come to stand at the start of the text. *)
Lemma clean_not_idempotent :
  clean (txt "-:x:-  y") = txt " y"
  /\ clean (clean (txt "-:x:-  y")) = txt "y"
  /\ clean (clean (txt "-:x:-  y")) <> clean (txt "-:x:-  y").
Proof. vm_compute. repeat split. discriminate. Qed.

Definition not_space (c : ascii) : bool := negb (isspace c).

Lemma strip_keeps_not_space s : forall b,
  List.filter not_space (strip b s) = List.filter not_space s.
Proof.
  induction s as [|x t IH]; intros b; [done |]. cbn [strip].
  destruct (isspace x) eqn:Hx.
  - assert (Hn : not_space x = false) by (unfold not_space; by rewrite Hx).
    destruct b; cbn [List.filter]; rewrite Hn; apply IH.
  - assert (Hn : not_space x = true) by (unfold not_space; by rewrite Hx).
    cbn [List.filter]. rewrite Hn. f_equal. apply IH.
Qed.

Lemma strip_app w s : forall b,
  head_space s = false -> strip b (w ++ s) = strip b w ++ strip false s.
Proof.
  induction w as [|y w IH]; intros b Hs.
  - destruct s as [|x t]; [done |]. cbn [head_space] in Hs.
    cbn [app strip]. by rewrite Hs.
  - cbn [app strip]. destruct (isspace y); [destruct b |];
      rewrite ?IH by done; reflexivity.
Qed.

(** At an opening [-:] with no [:-] behind it the pattern has no match: the
    multiline alternative finds no end, and the two others do not start at
    a hyphen. *)
Lemma match_at_opener p body :
  lacks ":" "-" body = true ->
  match_at (Cursor p (txt "-:" ++ body)) = None.
Proof.
  intros H. rewrite match_at_unfold, leading_whitespace_run.
  cbn [txt list_ascii_of_string app].
  rewrite single_line_comment_none_head; [| done | by left].
  rewrite multiline_comment_unclosed by done.
  cbn [or_else]. by destruct (at_bol _).
Qed.

(** C6 as the code has it.  The end of the text does not close a comment.
    An opening [-:] with no [:-] behind it starts no match: the multiline
    alternative needs the closing marker, and no alternative but it starts
    at a hyphen; so the scan of the substitution, when it stands at the
    opener, keeps the hyphen and goes on behind it.  When the text has no
    [::], and none of its [-:] has a [:-] behind it, cleaning takes away
    the whitespace at the start of the lines and nothing else: the opener
    stays, with what is before it and behind it but for that whitespace,
    and the text stays as it is when no line of it starts with
    whitespace. *)
Theorem unterminated_comment_kept pre body :
  lacks ":" "-" body = true ->
  (forall p,
     rmatch multiline_comment Some (Cursor p (txt "-:" ++ body)) = None
     /\ match_at (Cursor p (txt "-:" ++ body)) = None
     /\ forall n,
          sub_from (S n) (Cursor p (txt "-:" ++ body))
          = "-"%char :: sub_from n (Cursor (Some "-"%char) (":"%char :: body)))
  /\ (lacks ":" ":" (pre ++ txt "-:" ++ body) = true ->
      open_ended (pre ++ txt "-:" ++ body) = true ->
      clean (pre ++ txt "-:" ++ body)
      = strip true pre ++ txt "-:" ++ strip false body
      /\ clean (pre ++ txt "-:" ++ body) = strip true (pre ++ txt "-:" ++ body)
      /\ List.filter not_space (clean (pre ++ txt "-:" ++ body))
         = List.filter not_space (pre ++ txt "-:" ++ body)
      /\ (tidy true (pre ++ txt "-:" ++ body) = true ->
          clean (pre ++ txt "-:" ++ body) = pre ++ txt "-:" ++ body)).
Proof.
  intros Hb. split.
  - intros p. split; [by apply multiline_comment_unclosed |].
    pose proof (match_at_opener p body Hb) as Hm. split; [done |].
    intros n. cbn [sub_from rest txt list_ascii_of_string app] in *.
    by rewrite Hm.
  - intros H1 H2.
    assert (Hq : calm (pre ++ txt "-:" ++ body) = true)
      by (unfold calm; by rewrite H1, H2).
    rewrite (clean_calm _ Hq). split; [| split; [done | split]].
    + by rewrite strip_app.
    + apply strip_keeps_not_space.
    + intros Ht. by apply strip_tidy.
Qed.

Definition unterminated : text := lines_text ["to a.lua"; "-: hidden"; "import x.lua"].

(** A closing marker with no opener before it, and then an opener. *)
Definition stray_close : text := lines_text ["to a:-b"; "  -: hidden"; "import x.lua"].

Lemma unterminated_comment_kept_witness :
  (forall p,
     rmatch multiline_comment Some
       (Cursor p (txt "-:" ++ lines_text [" hidden"; "import x.lua"])) = None
     /\ match_at (Cursor p (txt "-:" ++ lines_text [" hidden"; "import x.lua"]))
        = None
     /\ forall n,
          sub_from (S n)
            (Cursor p (txt "-:" ++ lines_text [" hidden"; "import x.lua"]))
          = "-"%char
            :: sub_from n (Cursor (Some "-"%char)
                             (":"%char :: lines_text [" hidden"; "import x.lua"])))
  /\ clean stray_close
     = strip true (lines_text ["to a:-b"; "  "]) ++ txt "-:"
       ++ strip false (lines_text [" hidden"; "import x.lua"])
  /\ clean stray_close = lines_text ["to a:-b"; "-: hidden"; "import x.lua"].
Proof.
  destruct (unterminated_comment_kept
              (lines_text ["to a:-b"; "  "])
              (lines_text [" hidden"; "import x.lua"])) as [Hopener Hclean];
    [reflexivity |].
  split; [exact Hopener |].
  destruct Hclean as (H1 & H2 & _); [reflexivity | reflexivity |].
  split; [exact H1 | exact H2].
Defined.

(** C6 as the specification has it fails: the unterminated comment is not
    removed, its lines are interpreted as directives, and an opener alone
    on its line is an error of the interpreter. *)
Lemma unterminated_comment_is_read :
  clean unterminated = unterminated
  /\ load_mods no_int_float (clean unterminated) quiet_world
     = (Ret tt,
        add_logs
          [LogRecord DEBUG
             "Changing destination for the following imports to %s"
             [AText (txt "a.lua")] false;
           LogRecord WARNING
             ("Command " +:+ quoted "%s" +:+ " is not supported!")
             [AText (txt "-:")] false;
           LogRecord DEBUG "Importing %s" [AText (txt "x.lua")] false]
          quiet_world)
  /\ load_mods no_int_float (clean (txt "-:")) quiet_world
     = (Raise (ValueError_unpack 1), quiet_world).
Proof. vm_compute. repeat split. Qed.

(** * Further properties *)

(** ** Cleaning only deletes *)

(** A match ends at or behind the position it starts from. *)
Definition advances (k : cursor -> option cursor) : Prop :=
  forall c c', k c = Some c' -> rest c' `suffix_of` rest c.

Lemma advances_eat p k : advances k -> advances (eat p k).
Proof.
  intros Hk [q [|x t]] c'; unfold eat; cbn [rest]; [done |].
  destruct (p x); [| done]. intros H%Hk. by apply suffix_cons_r.
Qed.

Lemma advances_or_else (k1 k2 : cursor -> option cursor) :
  advances k1 -> advances k2 -> advances (fun c => or_else (k1 c) (k2 c)).
Proof.
  intros H1 H2 c c'. unfold or_else.
  destruct (k1 c) eqn:E; [intros [= <-]; by apply H1 | apply H2].
Qed.

Lemma advances_rmatch r : forall k, advances k -> advances (rmatch r k).
Proof.
  induction r as [a| | | | |r1 IH1 r2 IH2|r1 IH1 r2 IH2|r1 IH1|r1 IH1|r1 IH1];
    intros k Hk.
  - by apply advances_eat.
  - by apply advances_eat.
  - by apply advances_eat.
  - intros c c'. cbn [rmatch]. destruct (at_bol c); [apply Hk | done].
  - intros c c'. cbn [rmatch]. destruct (at_eol c); [apply Hk | done].
  - cbn [rmatch]. apply IH1, IH2, Hk.
  - apply (advances_or_else (rmatch r1 k) (rmatch r2 k)); auto.
  - apply (advances_or_else (rmatch r1 k) k); auto.
  - intros c. cbn [rmatch]. generalize (length (rest c)). intros n. revert c.
    induction n as [|n IHn]; [apply Hk |].
    apply (advances_or_else (rmatch r1 _) k); auto.
  - intros c. cbn [rmatch]. generalize (length (rest c)). intros n. revert c.
    induction n as [|n IHn]; [apply Hk |].
    apply (advances_or_else k (rmatch r1 _)); auto.
Qed.

Lemma match_at_advances c c' :
  match_at c = Some c' -> rest c' `suffix_of` rest c.
Proof.
  apply (advances_rmatch REGEX_SUBSTITUTION Some). by intros d d' [= <-].
Qed.

Lemma sub_from_sublist n : forall c, sub_from n c `sublist_of` rest c.
Proof.
  induction n as [|n IH]; intros [p s]; cbn [sub_from rest].
  - apply sublist_nil_l.
  - destruct s as [|x t]; [done |].
    assert (Hkeep : x :: sub_from n (Cursor (Some x) t) `sublist_of` x :: t)
      by apply sublist_skip, (IH (Cursor (Some x) t)).
    destruct (match_at (Cursor p (x :: t))) as [c'|] eqn:Hm; [| exact Hkeep].
    case_bool_decide; [| exact Hkeep].
    apply match_at_advances in Hm as [k Hk]. cbn [rest] in Hk. rewrite Hk.
    apply sublist_inserts_l, IH.
Qed.

(** X1.  Cleaning deletes and does nothing else: the cleaned text is what
    is left of the text, in order, when some of its characters are taken
    away. *)
Theorem clean_sublist T : clean T `sublist_of` T.
Proof. apply (sub_from_sublist (length T) (Cursor None T)). Qed.

(** ** Comments that are matched *)

Lemma colons_match q s :
  colons (Cursor q (":" :: ":" :: s)%char) =
  rmatch (LazyStar Dot) end_of_line (Cursor (Some ":"%char) s).
Proof. reflexivity. Qed.

Lemma lazy_dot_cons k p x t :
  rmatch (LazyStar Dot) k (Cursor p (x :: t)) =
  or_else (k (Cursor p (x :: t)))
    (if negb (bool_decide (x = LF))
     then rmatch (LazyStar Dot) k (Cursor (Some x) t) else None).
Proof. reflexivity. Qed.

Lemma end_of_line_LF p s :
  end_of_line (Cursor p (LF :: s)) = Some (Cursor (Some LF) s).
Proof. reflexivity. Qed.

Lemma end_of_line_other p x t :
  x <> LF -> end_of_line (Cursor p (x :: t)) = None.
Proof.
  intros Hx. unfold end_of_line. cbn [rmatch]. unfold at_eol. cbn [rest].
  by rewrite bool_decide_eq_false_2.
Qed.

(** The lazy [.*?] runs to the line feed, which the closing [\s?] takes. *)
Lemma lazy_dot_to_LF body : forall q s,
  Forall (fun c => c <> LF) body ->
  rmatch (LazyStar Dot) end_of_line (Cursor q (body ++ LF :: s))
  = Some (Cursor (Some LF) s).
Proof.
  induction body as [|x body IH]; intros q s Hb; cbn [app].
  - by rewrite lazy_dot_cons, end_of_line_LF.
  - apply Forall_cons in Hb as [Hx Hb].
    rewrite lazy_dot_cons, (end_of_line_other _ _ _ Hx). cbn [or_else].
    rewrite bool_decide_eq_false_2 by done. cbn [negb]. by apply IH.
Qed.

(** The character before the position behind [w]. *)
Fixpoint behind (p : option ascii) (w : text) : option ascii :=
  match w with
  | [] => p
  | x :: t => behind (Some x) t
  end.

(** Without a line feed it runs to the end of the text. *)
Lemma lazy_dot_to_end body : forall q,
  Forall (fun c => c <> LF) body ->
  rmatch (LazyStar Dot) end_of_line (Cursor q body)
  = Some (Cursor (behind q body) []).
Proof.
  induction body as [|x body IH]; intros q Hb; [reflexivity |].
  apply Forall_cons in Hb as [Hx Hb].
  rewrite lazy_dot_cons, (end_of_line_other _ _ _ Hx). cbn [or_else behind].
  rewrite bool_decide_eq_false_2 by done. cbn [negb]. by apply IH.
Qed.

(** [sep] is nothing, or one whitespace character. *)
Definition optional_space (sep : text) : Prop :=
  sep = [] \/ exists x, sep = [x] /\ isspace x = true.

Lemma single_line_match p sep s v :
  optional_space sep ->
  rmatch (LazyStar Dot) end_of_line (Cursor (Some ":"%char) s) = Some v ->
  rmatch single_line_comment Some (Cursor p (sep ++ txt "::" ++ s)) = Some v.
Proof.
  intros [->|(x & -> & Hx)] Hv; rewrite single_line_unfold.
  - cbn [app txt list_ascii_of_string]. rewrite colons_match, Hv.
    unfold eat. cbn [rest isspace]. reflexivity.
  - cbn [app txt list_ascii_of_string]. unfold eat at 1. cbn [rest].
    by rewrite Hx, colons_match, Hv.
Qed.

(** *** The character before a position matters at the start of a line only *)

Lemma single_line_before p p' s :
  rmatch single_line_comment Some (Cursor p s)
  = rmatch single_line_comment Some (Cursor p' s).
Proof. rewrite !single_line_unfold. by destruct s as [|x [|y t]]. Qed.

Lemma multiline_before p p' s :
  rmatch multiline_comment Some (Cursor p s)
  = rmatch multiline_comment Some (Cursor p' s).
Proof. by destruct s as [|x [|y t]]. Qed.

Lemma match_at_before p p' s :
  at_bol (Cursor p s) = at_bol (Cursor p' s) \/ head_space s = false ->
  match_at (Cursor p s) = match_at (Cursor p' s).
Proof.
  intros H. rewrite !match_at_unfold, !leading_whitespace_run.
  rewrite (single_line_before p p'), (multiline_before p p').
  f_equal. destruct H as [->|H]; [done |].
  destruct s as [|x t]; cbn [head_space] in H; [| rewrite H];
    by destruct (at_bol _), (at_bol _).
Qed.

Lemma sub_from_before n p p' s :
  at_bol (Cursor p s) = at_bol (Cursor p' s) \/ head_space s = false ->
  sub_from n (Cursor p s) = sub_from n (Cursor p' s).
Proof.
  intros H. destruct n as [|n]; [done |]. cbn [sub_from rest].
  destruct s as [|x t]; [done |]. by rewrite (match_at_before p p').
Qed.

(** Behind a match the scan goes on as the cleaning of what is left, when
    that starts a line or does not start with whitespace. *)
Lemma sub_from_match n c p' s' :
  match_at c = Some (Cursor p' s') ->
  length s' < length (rest c) ->
  length (rest c) <= n ->
  at_bol (Cursor p' s') = true \/ head_space s' = false ->
  sub_from n c = clean s'.
Proof.
  intros Hm Hlt Hn Hb. destruct n as [|n]; [lia |].
  destruct c as [p [|x t]]; cbn [rest] in *; [simpl in Hlt; lia |].
  cbn [sub_from rest]. rewrite Hm. cbn [rest].
  rewrite bool_decide_eq_true_2 by done.
  rewrite (sub_from_fuel n (length s')) by (cbn [rest]; simpl in *; lia).
  unfold clean. apply sub_from_before.
  destruct Hb as [Hb|Hb]; [left; by rewrite Hb | by right].
Qed.

(** *** Text that is copied *)

(** No colon and no hyphen. *)
Definition plain (w : text) : Prop :=
  Forall (fun c => c <> ":"%char /\ c <> "-"%char) w.

(** A plain stretch without whitespace at the start of a line, and not
    ending in whitespace, is copied, whatever follows it. *)
Lemma scan_plain w : forall n p s,
  plain w ->
  tidy (at_bol (Cursor p w)) w = true ->
  (forall x, last w = Some x -> isspace x = false) ->
  length (w ++ s) <= n ->
  sub_from n (Cursor p (w ++ s))
  = w ++ sub_from (n - length w) (Cursor (behind p w) s).
Proof.
  induction w as [|x w IH]; intros n p s Hp Ht Hl Hn.
  - cbn [app length behind]. by rewrite Nat.sub_0_r.
  - apply Forall_cons in Hp as [[Hc Hh] Hp].
    cbn [tidy] in Ht. apply andb_true_iff in Ht as [Hb Ht].
    destruct n as [|n]; [simpl in Hn; lia |].
    cbn [app sub_from rest length behind Nat.sub].
    assert (Hnone : match_at (Cursor p (x :: w ++ s)) = None).
    { rewrite match_at_unfold, leading_whitespace_run.
      rewrite single_line_comment_none_head; [| done |].
      - rewrite multiline_comment_no_opener.
        + cbn [or_else]. unfold at_bol in *. cbn [before] in *.
          destruct (match p with Some q => bool_decide (q = LF) | None => true end);
            [| done].
          cbn [andb] in Hb. apply negb_true_iff in Hb. by rewrite Hb.
        + cbn [starts_with]. destruct (w ++ s); [done |].
          by rewrite bool_decide_eq_false_2.
      - destruct w as [|y w]; [left; by apply Hl |].
        right. apply Forall_cons in Hp as [[Hy _] _]. cbn [app starts_with].
        destruct (w ++ s); [done |]. by rewrite bool_decide_eq_false_2. }
    rewrite Hnone. f_equal. apply IH; try done.
    + intros y Hy. apply Hl. rewrite last_cons. by rewrite Hy.
    + simpl in Hn. lia.
Qed.

(** X2.  A single-line comment goes from [::], with one whitespace
    character before it, to the end of its line and takes the line feed
    with it: what stands before the comment is joined to the next line. *)
Theorem clean_line_comment w sep body next :
  plain w ->
  tidy true w = true ->
  (forall x, last w = Some x -> isspace x = false) ->
  optional_space sep ->
  Forall (fun c => c <> LF) body ->
  clean (w ++ sep ++ txt "::" ++ body ++ LF :: next) = w ++ clean next.
Proof.
  intros Hp Ht Hl Hsep Hb. unfold clean at 1.
  rewrite scan_plain; [| done | done | done | done]. f_equal.
  eapply sub_from_match.
  - rewrite match_at_unfold.
    rewrite (single_line_match _ sep _ _ Hsep (lazy_dot_to_LF body _ next Hb)).
    reflexivity.
  - cbn [rest]. rewrite !length_app. cbn [length txt list_ascii_of_string]. lia.
  - cbn [rest]. rewrite !length_app. lia.
  - by left.
Qed.

Lemma clean_line_comment_witness :
  clean (lines_text ["to x ::y"; "import z"]) = txt "to x" ++ clean (txt "import z").
Proof.
  apply (clean_line_comment (txt "to x") (txt " ") (txt "y") (txt "import z")).
  - repeat constructor; discriminate.
  - reflexivity.
  - intros x [= <-]. reflexivity.
  - right. by exists " "%char.
  - repeat constructor; discriminate.
Defined.

(** X3.  A single-line comment in the last line, which no line feed ends,
    goes to the end of the text. *)
Theorem clean_line_comment_at_end w sep body :
  plain w ->
  tidy true w = true ->
  (forall x, last w = Some x -> isspace x = false) ->
  optional_space sep ->
  Forall (fun c => c <> LF) body ->
  clean (w ++ sep ++ txt "::" ++ body) = w.
Proof.
  intros Hp Ht Hl Hsep Hb. unfold clean at 1.
  rewrite scan_plain; [| done | done | done | done].
  transitivity (w ++ clean []); [f_equal | apply app_nil_r].
  eapply sub_from_match; [| | | by right].
  - rewrite match_at_unfold.
    rewrite (single_line_match _ sep _ _ Hsep (lazy_dot_to_end body _ Hb)).
    reflexivity.
  - cbn [rest]. rewrite !length_app. cbn [length txt list_ascii_of_string]. lia.
  - cbn [rest]. rewrite !length_app. lia.
Qed.

Lemma clean_line_comment_at_end_witness :
  clean (txt "import z :: the last one") = txt "import z".
Proof.
  apply (clean_line_comment_at_end (txt "import z") (txt " ")
           (txt " the last one")).
  - repeat constructor; discriminate.
  - reflexivity.
  - intros x [= <-]. reflexivity.
  - right. by exists " "%char.
  - repeat constructor; discriminate.
Defined.

Lemma closing_match q s :
  closing (Cursor q (":" :: "-" :: s)%char) =
  Some (match s with
        | x :: t => if isspace x then Cursor (Some x) t
                    else Cursor (Some "-"%char) s
        | [] => Cursor (Some "-"%char) s
        end).
Proof. destruct s as [|x t]; [reflexivity |]. unfold closing. cbn [rmatch].
  unfold eat, or_else. cbn [rest]. by destruct (isspace x). Qed.

Lemma starts_with_behind a b x body c s :
  starts_with a b (x :: body ++ c :: s) = starts_with a b (x :: body ++ [c]).
Proof. by destruct body. Qed.

(** The lazy repetition ends at the first [:-]. *)
Lemma lazy_any_closed body : forall q s v,
  lacks ":" "-" (body ++ [":"%char]) = true ->
  closing (Cursor (behind q body) (":" :: "-" :: s)%char) = Some v ->
  rmatch (LazyStar (Dot ||| Space)) closing
         (Cursor q (body ++ (":" :: "-" :: s)%char)) = Some v.
Proof.
  induction body as [|x body IH]; intros q s v Hl Hv; cbn [app behind] in *.
  - by rewrite lazy_any_cons, Hv.
  - cbn [lacks] in Hl. apply andb_true_iff in Hl as [H0 Hl].
    apply negb_true_iff in H0. rewrite <- starts_with_behind with (s := ("-" :: s)%char) in H0.
    rewrite lazy_any_cons, (closing_none _ _ H0), (IH _ _ _ Hl Hv).
    cbn [or_else]. case_bool_decide as Hx; cbn [negb]; [| done].
    subst x. reflexivity.
Qed.

Lemma skip_ws_app w s : forall p,
  head_space s = false ->
  skip_ws p (w ++ s) = Cursor (before (skip_ws p w)) (rest (skip_ws p w) ++ s).
Proof.
  induction w as [|x w IH]; intros p Hs.
  - destruct s as [|y t]; [done |]. cbn [head_space] in Hs.
    cbn [app skip_ws]. by rewrite Hs.
  - cbn [app skip_ws]. destruct (isspace x); [by apply IH | done].
Qed.

Lemma behind_skip_ws w : forall p,
  behind (before (skip_ws p w)) (rest (skip_ws p w)) = behind p w.
Proof.
  induction w as [|x w IH]; intros p; [done |]. cbn [skip_ws].
  destruct (isspace x); [cbn [behind]; apply IH | done].
Qed.

Lemma skip_ws_Forall (P : ascii -> Prop) w : forall p,
  Forall P w -> Forall P (rest (skip_ws p w)).
Proof.
  induction w as [|x w IH]; intros p Hw; [done |]. cbn [skip_ws].
  destruct (isspace x); [| done]. apply IH. by apply Forall_cons in Hw as [_ Hw].
Qed.

(** A stretch without a colon loses the whitespace at the start of its
    lines and nothing else, when what follows it starts with neither
    whitespace nor a colon. *)
Lemma scan_colonless n : forall w p s,
  Forall (fun c => c <> ":"%char) w ->
  head_space s = false ->
  head s <> Some ":"%char ->
  length (w ++ s) <= n ->
  sub_from n (Cursor p (w ++ s))
  = strip (at_bol (Cursor p [])) w ++ sub_from (length s) (Cursor (behind p w) s).
Proof.
  induction n as [|n IH]; intros w p s Hw Hs Hc Hn.
  - destruct w, s; simpl in Hn; try lia. reflexivity.
  - destruct w as [|x w].
    + cbn [app strip behind]. apply sub_from_fuel; cbn [rest]; simpl in Hn; lia.
    + apply Forall_cons in Hw as [Hx Hw].
      assert (Hhd : head (w ++ s) <> Some ":"%char).
      { destruct w as [|y w]; [exact Hc |]. apply Forall_cons in Hw as [Hy _].
        cbn [app head]. congruence. }
      assert (Hsingle : rmatch single_line_comment Some (Cursor p (x :: w ++ s))
                        = None).
      { apply single_line_comment_none_head; [done |]. right.
        destruct (w ++ s) as [|y [|z r]]; cbn [starts_with]; [done | done |].
        rewrite bool_decide_eq_false_2; [done |]. cbn [head] in Hhd. congruence. }
      assert (Hmulti : rmatch multiline_comment Some (Cursor p (x :: w ++ s))
                       = None).
      { apply multiline_comment_no_opener.
        destruct (w ++ s) as [|y r]; cbn [starts_with]; [done |].
        rewrite (bool_decide_eq_false_2 (y = ":"%char)), andb_false_r; [done |].
        cbn [head] in Hhd. congruence. }
      cbn [app sub_from rest]. rewrite match_at_unfold, Hsingle, Hmulti.
      rewrite leading_whitespace_run. cbn [or_else behind].
      change (at_bol (Cursor p (x :: w ++ s))) with (at_bol (Cursor p [])).
      assert (Hkeep : x :: sub_from n (Cursor (Some x) (w ++ s))
                      = x :: strip (bool_decide (x = LF)) w
                        ++ sub_from (length s) (Cursor (behind (Some x) w) s)).
      { cbn [app]. f_equal. rewrite IH; [done | done | done | done |].
        simpl in Hn. lia. }
      cbn [strip]. destruct (at_bol (Cursor p [])).
      * destruct (isspace x) eqn:Hsp.
        -- rewrite skip_ws_app by done. cbn [rest].
           pose proof (skip_ws_length w (Some x)) as Hlen.
           rewrite bool_decide_eq_true_2
             by (rewrite !length_app; simpl; rewrite length_app; lia).
           rewrite IH; [| by apply skip_ws_Forall | done | done |].
           ++ by rewrite strip_skip_ws, behind_skip_ws.
           ++ cbn [app length] in Hn. rewrite length_app in *. lia.
        -- rewrite Hkeep. by rewrite (not_space_not_LF _ Hsp).
      * rewrite Hkeep. destruct (isspace x) eqn:Hsp; [done |].
        by rewrite (not_space_not_LF _ Hsp).
Qed.

Lemma lacks_before_colon body :
  lacks ":" "-" body = true -> lacks ":" "-" (body ++ [":"%char]) = true.
Proof.
  induction body as [|x body IH]; intros H; [done |].
  cbn [app lacks] in *. apply andb_true_iff in H as [H0 H].
  rewrite (IH H), andb_true_r. destruct body as [|y body]; [| exact H0].
  cbn [app starts_with]. by rewrite andb_false_r.
Qed.

(** X4.  A multiline comment that is closed goes from [-:] to the first
    [:-] behind it, over the lines between them, and takes one whitespace
    character behind the [:-] with it.  Before the comment stands [w],
    which has no colon, and [body] is what is between the markers, with no
    [:-] of its own; of [w] the whitespace at the start of its lines goes,
    so that [w] stays as it is when none of its lines starts with
    whitespace.  Behind the comment the cleaning goes on with [next], when
    a line feed was taken with the comment or [next] does not start with
    whitespace. *)
Theorem clean_block_comment w body next :
  Forall (fun c => c <> ":"%char) w ->
  lacks ":" "-" body = true ->
  clean (w ++ txt "-:" ++ body ++ txt ":-" ++ LF :: next)
  = strip true w ++ clean next
  /\ (head_space next = false ->
      clean (w ++ txt "-:" ++ body ++ txt ":-" ++ next) = strip true w ++ clean next)
  /\ (tidy true w = true -> strip true w = w).
Proof.
  intros Hw Hb%lacks_before_colon.
  assert (Hm : forall q s v,
    closing (Cursor (behind (Some ":"%char) body) (":" :: "-" :: s)%char) = Some v ->
    match_at (Cursor q (txt "-:" ++ body ++ txt ":-" ++ s)) = Some v).
  { intros q s v Hv. rewrite match_at_unfold.
    cbn [txt list_ascii_of_string app].
    rewrite single_line_comment_none_head; [| done | by left].
    rewrite multiline_comment_opened. cbn [or_else].
    by rewrite (lazy_any_closed body _ s v Hb Hv). }
  split; [| split; [intros Hn | apply strip_tidy]]; unfold clean at 1;
    (rewrite scan_colonless; [| done | done | done | done]); f_equal;
    eapply sub_from_match.
  - apply Hm. reflexivity.
  - cbn [rest]. rewrite !length_app. cbn [length txt list_ascii_of_string]. lia.
  - done.
  - by left.
  - apply Hm. rewrite closing_match.
    destruct next as [|x t]; [reflexivity |]. cbn [head_space] in Hn.
    by rewrite Hn.
  - cbn [rest]. rewrite !length_app. cbn [length txt list_ascii_of_string]. lia.
  - done.
  - by right.
Qed.

Lemma clean_block_comment_witness :
  clean (lines_text ["to x-y"; "  -: one"; "two :-"; "import z"])
  = strip true (lines_text ["to x-y"; "  "]) ++ clean (txt "import z")
  /\ (head_space (txt "import z") = false ->
      clean (lines_text ["to x-y"; "  "] ++ txt "-:" ++ lines_text [" one"; "two "]
             ++ txt ":-" ++ txt "import z")
      = strip true (lines_text ["to x-y"; "  "]) ++ clean (txt "import z"))
  /\ (tidy true (lines_text ["to x-y"; "  "]) = true ->
      strip true (lines_text ["to x-y"; "  "]) = lines_text ["to x-y"; "  "]).
Proof.
  apply (clean_block_comment (lines_text ["to x-y"; "  "])
           (lines_text [" one"; "two "]) (txt "import z")).
  - repeat constructor; discriminate.
  - reflexivity.
Defined.

(** ** Texts without a comment *)

(** X5.  Of a text without a comment, cleaning removes the whitespace at
    the start of the lines, blank lines with it, and nothing else: the
    cleaned text is the text without the whitespace characters that stand
    at the start of the text or behind a line feed that stays, or follow
    one that has been removed there ([strip]).  So no line of the cleaned
    text starts with whitespace, and the characters that are not
    whitespace are those of the text. *)
Theorem clean_without_comment T :
  quiet T = true ->
  clean T = strip true T
  /\ tidy true (clean T) = true
  /\ List.filter not_space (clean T) = List.filter not_space T.
Proof.
  intros Hq. rewrite (clean_quiet T Hq). split; [done | split].
  - apply tidy_strip.
  - apply strip_keeps_not_space.
Qed.

Lemma clean_without_comment_witness :
  clean (lines_text ["  to a:b"; ""; "   import c"])
  = strip true (lines_text ["  to a:b"; ""; "   import c"])
  /\ tidy true (clean (lines_text ["  to a:b"; ""; "   import c"])) = true
  /\ List.filter not_space (clean (lines_text ["  to a:b"; ""; "   import c"]))
     = List.filter not_space (lines_text ["  to a:b"; ""; "   import c"]).
Proof.
  apply (clean_without_comment (lines_text ["  to a:b"; ""; "   import c"])).
  reflexivity.
Defined.

Lemma lacks_no_first a b s :
  Forall (fun c => c <> a) s -> lacks a b s = true.
Proof.
  induction 1 as [|x s Hx _ IH]; [done |]. cbn [lacks]. rewrite IH, andb_true_r.
  apply negb_true_iff. destruct s; cbn [starts_with]; [done |].
  by rewrite bool_decide_eq_false_2.
Qed.

Lemma strip_whitespace s :
  Forall (fun c => isspace c = true) s -> strip true s = [].
Proof. induction 1 as [|x s Hx _ IH]; [done |]. cbn [strip]. by rewrite Hx. Qed.

(** X6.  A text of whitespace only, blank lines for one, is cleaned to the
    empty text. *)
Theorem clean_whitespace T :
  Forall (fun c => isspace c = true) T -> clean T = [].
Proof.
  intros Hw. rewrite clean_quiet; [by apply strip_whitespace |].
  assert (Hc : forall a, isspace a = false -> Forall (fun c => c <> a) T).
  { intros a Ha. eapply Forall_impl; [exact Hw |]. intros c Hc ->. congruence. }
  unfold quiet. by rewrite !lacks_no_first by (by apply Hc).
Qed.

Lemma clean_whitespace_witness :
  clean (lines_text ["   "; ""; "  "]) = [].
Proof.
  apply (clean_whitespace (lines_text ["   "; ""; "  "])).
  repeat constructor.
Defined.

(** ** Guessing the game *)

Lemma parent_name_app base a b :
  name (parent (base ++ [a; b])) = a.
Proof.
  unfold name, parent.
  replace (base ++ [a; b]) with ((base ++ [a]) ++ [b])
    by (by rewrite <- app_assoc).
  by rewrite removelast_last, last_last.
Qed.

(** X7.  [guess_game] finds every game from a path whose last folder but
    one has the name of the game. *)
Theorem guess_game_of_parent g base leaf :
  guess_game (base ++ [value g; leaf]) = g.
Proof. unfold guess_game. rewrite parent_name_app. by destruct g. Qed.

(** X8.  When the parent folder has the name of no game the guess is
    HADES, whatever the name of the folder itself, also that of a game. *)
Theorem guess_game_default game_path :
  (forall g, name (parent game_path) <> value g) ->
  guess_game game_path = HADES.
Proof.
  intros H. unfold guess_game.
  pose proof (H HADES). pose proof (H PYRE). pose proof (H TRANSISTOR).
  pose proof (H BASTION). cbn [value] in *.
  by rewrite !bool_decide_eq_false_2.
Qed.

Lemma guess_game_default_witness : guess_game ["games"; "Pyre"] = HADES.
Proof.
  apply (guess_game_default ["games"; "Pyre"]). intros g. by destruct g.
Defined.

(** ** When the interpreter gets through *)

(** A line that [load_mods] gets past: two tokens at least, and for a
    [load] a third one that [int(float(.))] takes. *)
Definition line_ok (int_float : text -> outcome Z) (line : text) : Prop :=
  match split line with
  | command :: sub :: priority =>
      lower command = txt "load" ->
      match priority with
      | p0 :: _ => exists z, int_float p0 = Ret z
      | [] => False
      end
  | _ => False
  end.

Lemma load_line_returns int_float line w :
  (exists w', load_line int_float line w = (Ret tt, w'))
  <-> line_ok int_float line.
Proof.
  unfold load_line, line_ok.
  destruct (split line) as [|command [|sub priority]];
    [split; [by intros [w' [=]] | done] ..|].
  cbv zeta. unfold text_eqb. case_bool_decide as Hc.
  - destruct priority as [|p0 priority].
    + split; [by intros [w' [=]] | by intros H; destruct (H Hc)].
    + destruct (int_float p0) as [z|e].
      * split; [intros _ _; by exists z | intros _; by eexists].
      * split; [by intros [w' [=]] | intros H; by destruct (H Hc) as [z [=]]].
  - split; [done | intros _].
    repeat (case_bool_decide; [by eexists |]). by eexists.
Qed.

(** X9.  [load_mods] returns, rather than raises, exactly when every line
    of the text has two tokens or more and every [load] line, in any
    letter case, has a third token that [int(float(.))] takes; a command
    that is not known does not stop it. *)
Theorem load_mods_returns int_float s w :
  (exists w', load_mods int_float s w = (Ret tt, w'))
  <-> Forall (line_ok int_float) (splitlines s).
Proof.
  unfold load_mods. generalize (splitlines s). intros lines. revert w.
  induction lines as [|line lines IH]; intros w.
  - split; [constructor | by eexists].
  - cbn [for_each]. unfold mbind, M_bind. rewrite Forall_cons.
    rewrite <- (load_line_returns int_float line w).
    destruct (load_line int_float line w) as [[[]|e] w1].
    + rewrite <- (IH w1). split; [intros H; split; [by eexists | done] | by intros [_ H]].
    + split; [by intros [w' [=]] | by intros [[w' [=]] _]].
Qed.

(** ** Backing up: the other cases *)

(** X10.  A file that is not below the folder of the backup folder, the
    game folder, stops [backup_files] with the ValueError of
    [relative_to]; nothing has been done for it, and the files behind it
    in the list are not backed up. *)
Theorem backup_outside_game_folder f file_list backup_path w :
  ~ parent backup_path `prefix_of` f ->
  backup_files (f :: file_list) backup_path w
  = (Raise (ValueError_relative_to f (parent backup_path)), w).
Proof.
  intros H%relative_to_None. unfold backup_files. cbn [for_each].
  unfold mbind, M_bind, backup_file. by rewrite H.
Qed.

Lemma backup_outside_game_folder_witness :
  backup_files [["elsewhere"; "a.txt"]; ["g"; "a.txt"]] ["g"; "Backup"]
               (world_of first_install)
  = (Raise (ValueError_relative_to ["elsewhere"; "a.txt"] ["g"]),
     world_of first_install).
Proof.
  apply (backup_outside_game_folder ["elsewhere"; "a.txt"] [["g"; "a.txt"]]
           ["g"; "Backup"] (world_of first_install)).
  intros [k Hk]. discriminate Hk.
Defined.

(** X11.  For a directory of the list [backup_files] makes an empty
    directory in the backup, once: when the directory is in the backup
    already, as after an earlier call, the call stops with FileExistsError
    and changes nothing. *)
Theorem backup_file_directory backup_path f w :
  node_at (files w) f = Some Dir ->
  parent backup_path `prefix_of` f ->
  node_at (files w) (parent (mirror backup_path f)) = Some Dir ->
  backup_file backup_path f w =
  match node_at (files w) (mirror backup_path f) with
  | None =>
      (Ret tt,
       World (<[mirror backup_path f := Dir]> (files w)) (logged w)
             (threshold w) (echoed w) (answers w))
  | Some _ => (Raise (FileExistsError (mirror backup_path f)), w)
  end.
Proof.
  intros Hf [rel ->] Hparent. unfold backup_file, mirror in *.
  rewrite relative_to_join in *. cbn [default from_option id] in *.
  set (d := joinpath backup_path rel) in *.
  unfold_M. unfold fs_exists, fs_is_dir.
  rewrite Hparent. cbn [negb]. rewrite Hf. unfold mkdir.
  rewrite mkdir_plain_run.
  destruct (node_at (files w) d); [reflexivity |]. by rewrite Hparent.
Qed.

Definition game_with_folder : gmap path node :=
  list_to_map
    [ (["g"], Dir);
      (["g"; "Scripts"], Dir);
      (["g"; "Backup"], Dir) ].

Lemma backup_file_directory_witness :
  let once := (backup_file ["g"; "Backup"] ["g"; "Scripts"]
                 (world_of game_with_folder)).2 in
  files once !! ["g"; "Backup"; "Scripts"] = Some Dir
  /\ backup_file ["g"; "Backup"] ["g"; "Scripts"] once
     = (Raise (FileExistsError ["g"; "Backup"; "Scripts"]), once).
Proof.
  cbv zeta. split.
  - rewrite (backup_file_directory ["g"; "Backup"] ["g"; "Scripts"]
               (world_of game_with_folder));
      [reflexivity | reflexivity | by exists ["Scripts"] | reflexivity].
  - rewrite (backup_file_directory ["g"; "Backup"] ["g"; "Scripts"]
               (world_of game_with_folder));
      [| reflexivity | by exists ["Scripts"] | reflexivity].
    apply (backup_file_directory ["g"; "Backup"] ["g"; "Scripts"]);
      [reflexivity | by exists ["Scripts"] | reflexivity].
Defined.

(** ** Restoring: the other cases *)

(** X12.  A directory of the backup that is missing in the game folder is
    not made by the loop body of [restore_files] for its entry.  The loop
    body makes the folders above the place, when no file stands in their
    way, and then treats the entry as a file: the copy fails with
    IsADirectoryError, which is logged as an error, and the place is as
    empty as before. *)
Theorem restore_missing_directory game_path backup_path item rel w :
  relative_to item backup_path = Some rel ->
  node_at (files w) item = Some Dir ->
  node_at (files w) (joinpath game_path rel) = None ->
  (forall q d, q `prefix_of` parent (joinpath game_path rel) ->
               node_at (files w) q <> Some (File d)) ->
  exists fs1,
    restore_item game_path backup_path item w
    = (Ret tt,
       World fs1 (logged w ++ [unable_to_restore (joinpath game_path rel)])
             (threshold w) (echoed w) (answers w))
    /\ copyfile item (joinpath game_path rel)
                (World fs1 (logged w) (threshold w) (echoed w) (answers w))
       = (Raise (IsADirectoryError item),
          World fs1 (logged w) (threshold w) (echoed w) (answers w))
    /\ node_at fs1 (joinpath game_path rel) = None
    /\ dirs_added (parent (joinpath game_path rel)) (files w) fs1
    /\ (node_at (files w) (parent (joinpath game_path rel)) = Some Dir ->
        fs1 = files w).
Proof.
  intros Hrel Hitem Htarget Hfree.
  assert (Hdir : fs_is_dir (files w) (joinpath game_path rel) = false)
    by (unfold fs_is_dir; by rewrite Htarget).
  destruct (restore_item_cases game_path backup_path item rel w Hrel Hdir Hfree)
    as (fs1 & Hadd & Hsame & Ht1 & Hrun).
  set (target := joinpath game_path rel) in *.
  assert (Hne : item <> target) by (intros ->; congruence).
  assert (Hi1 : node_at fs1 item = Some Dir).
  { destruct Hadd as [_ Hadd].
    destruct (Hadd item) as [->|(Hn & _)]; [done | congruence]. }
  exists fs1. rewrite Hrun, Hi1, bool_decide_eq_false_2 by done.
  split; [done |]. split; [| split; [congruence | done]].
  unfold copyfile. unfold_M. cbn [files].
  rewrite bool_decide_eq_false_2 by done. by rewrite Hi1.
Qed.

Definition backup_with_folders : gmap path node :=
  list_to_map
    [ (["g"], Dir);
      (["g"; "Backup"], Dir);
      (["g"; "Backup"; "Content"], Dir);
      (["g"; "Backup"; "Content"; "Scripts"], Dir) ].

Lemma restore_missing_directory_witness :
  exists fs1,
    restore_item ["g"] ["g"; "Backup"] ["g"; "Backup"; "Content"; "Scripts"]
                 (world_of backup_with_folders)
    = (Ret tt,
       World fs1
         (logged (world_of backup_with_folders)
          ++ [unable_to_restore (joinpath ["g"] ["Content"; "Scripts"])])
         (threshold (world_of backup_with_folders))
         (echoed (world_of backup_with_folders))
         (answers (world_of backup_with_folders)))
    /\ copyfile ["g"; "Backup"; "Content"; "Scripts"]
                (joinpath ["g"] ["Content"; "Scripts"])
                (World fs1 (logged (world_of backup_with_folders))
                       (threshold (world_of backup_with_folders))
                       (echoed (world_of backup_with_folders))
                       (answers (world_of backup_with_folders)))
       = (Raise (IsADirectoryError ["g"; "Backup"; "Content"; "Scripts"]),
          World fs1 (logged (world_of backup_with_folders))
                (threshold (world_of backup_with_folders))
                (echoed (world_of backup_with_folders))
                (answers (world_of backup_with_folders)))
    /\ node_at fs1 (joinpath ["g"] ["Content"; "Scripts"]) = None
    /\ dirs_added (parent (joinpath ["g"] ["Content"; "Scripts"]))
                  (files (world_of backup_with_folders)) fs1
    /\ (node_at (files (world_of backup_with_folders))
                (parent (joinpath ["g"] ["Content"; "Scripts"])) = Some Dir ->
        fs1 = files (world_of backup_with_folders)).
Proof.
  apply (restore_missing_directory ["g"] ["g"; "Backup"]
           ["g"; "Backup"; "Content"; "Scripts"] ["Content"; "Scripts"]
           (world_of backup_with_folders)).
  - reflexivity.
  - reflexivity.
  - reflexivity.
  - intros q d [k Hk]. change (parent (joinpath _ _)) with ["g"; "Content"] in Hk.
    destruct q as [|a [|b [|? ?]]]; simpl in Hk; simplify_eq;
      vm_compute; discriminate.
Defined.

(** ** The first backup of a file *)

Lemma backup_copy_step f d data w :
  node_at (files w) f = Some (File data) ->
  f <> d ->
  node_at (files w) d = None ->
  node_at (files w) (parent d) = Some Dir ->
  (dir ← is_dir f;
   if (dir : bool) then mkdir false false d
   else
     LOGGER_debug ("Copying file " +:+ quoted "%s" +:+ " to " +:+ quoted "%s")
                  [APath f; APath d] ;;
     copyfile f d) w
  = (Ret tt,
     World (<[d := File data]> (files w)) (logged w ++ [copying f d])
           (threshold w) (echoed w) (answers w)).
Proof.
  intros Hf Hne Hd Hparent. unfold copyfile. unfold_M. unfold fs_is_dir, fs_exists.
  cbn [files logged threshold echoed answers]. rewrite Hf.
  rewrite bool_decide_eq_false_2 by done. cbn [andb].
  rewrite ?Hf, Hd, Hparent. reflexivity.
Qed.

Definition creating_folder (p : path) : log_record :=
  LogRecord DEBUG ("Creating folder " +:+ quoted "%s") [APath p] false.

(** X13.  The first backup of a regular file of the game folder makes the
    folders that its entry needs in the backup, when no file stands in
    their way, and copies the file there; the file and all else that was
    there stay as they were. *)
Theorem backup_file_fresh backup_path f data w :
  node_at (files w) f = Some (File data) ->
  parent backup_path `prefix_of` f ->
  ~ backup_path `prefix_of` f ->
  node_at (files w) (mirror backup_path f) = None ->
  (forall q d, q `prefix_of` parent (mirror backup_path f) ->
               node_at (files w) q <> Some (File d)) ->
  exists w',
    backup_file backup_path f w = (Ret tt, w')
    /\ node_at (files w') (mirror backup_path f) = Some (File data)
    /\ node_at (files w') (parent (mirror backup_path f)) = Some Dir
    /\ forall q,
         node_at (files w') q = node_at (files w) q
         \/ (node_at (files w) q = None /\ q `prefix_of` mirror backup_path f).
Proof.
  intros Hf [rel ->] Hout Hm Hfree. unfold backup_file, mirror in *.
  rewrite relative_to_join in *. cbn [default from_option id] in *.
  set (f := parent backup_path ++ rel) in *.
  set (d := joinpath backup_path rel) in *.
  assert (Hne : f <> d).
  { intros He. apply Hout. rewrite He. by apply prefix_app_r. }
  assert (Hdne : d <> []) by (by destruct (node_at_None _ _ Hm)).
  unfold mbind at 1, M_bind at 1.
  change (exists_ (parent d) w) with (Ret (fs_exists (files w) (parent d)), w).
  cbn beta iota. unfold mbind at 1, M_bind at 1. unfold fs_exists.
  destruct (node_at (files w) (parent d)) as [[|dd]|] eqn:Hparent.
  - cbn [negb]. unfold mret at 1, M_ret at 1.
    rewrite (backup_copy_step f d data w Hf Hne Hm Hparent).
    eexists. split; [reflexivity |]. cbn [files].
    split; [by apply node_at_insert_eq |].
    split; [rewrite node_at_insert_ne; [done | by apply not_eq_sym, parent_ne] |].
    intros q. destruct (decide (d = q)) as [<-|Hq]; [by right |].
    left. by apply node_at_insert_ne.
  - by destruct (Hfree (parent d) dd).
  - cbn [negb]. unfold mbind at 1, M_bind at 1, LOGGER_debug at 1.
    rewrite log_run. unfold mkdir at 1.
    set (w0 := add_logs [creating_folder (parent d)] w).
    destruct (mkdir_parents_missing (length (parent d)) (parent d) false w0)
      as (fs1 & Hrun & Hdir & Hadd); [done | done | done |].
    fold (creating_folder (parent d)). fold w0. rewrite Hrun.
    set (w1 := World fs1 (logged w0) (threshold w0) (echoed w0) (answers w0)).
    assert (Hf1 : node_at fs1 f = Some (File data)).
    { destruct (Hadd f) as [Hl|(Hn & _)]; [rewrite Hl; exact Hf |].
      change (node_at (files w) f = None) in Hn. congruence. }
    assert (Hm1 : node_at fs1 d = None).
    { destruct (Hadd d) as [Hl|(_ & Hpre & _)]; [rewrite Hl; exact Hm |].
      by destruct (not_prefix_parent d Hdne). }
    rewrite (backup_copy_step f d data w1 Hf1 Hne Hm1 Hdir).
    eexists. split; [reflexivity |]. cbn [files].
    split; [by apply node_at_insert_eq |].
    split; [rewrite node_at_insert_ne; [done | by apply not_eq_sym, parent_ne] |].
    intros q. destruct (decide (d = q)) as [<-|Hq]; [by right |].
    rewrite node_at_insert_ne by done.
    destruct (Hadd q) as [Hl|(H1 & H2 & _)]; [by left |].
    right. split; [done |]. etrans; [exact H2 | apply parent_prefix].
Qed.

Definition game_with_script : gmap path node :=
  <[["g"; "Scripts"; "a.lua"] := File (txt "original")]> game_with_folder.

Lemma backup_file_fresh_witness :
  exists w',
    backup_file ["g"; "Backup"] ["g"; "Scripts"; "a.lua"]
                (world_of game_with_script) = (Ret tt, w')
    /\ node_at (files w') (mirror ["g"; "Backup"] ["g"; "Scripts"; "a.lua"])
       = Some (File (txt "original"))
    /\ node_at (files w')
               (parent (mirror ["g"; "Backup"] ["g"; "Scripts"; "a.lua"]))
       = Some Dir
    /\ forall q,
         node_at (files w') q = node_at (files (world_of game_with_script)) q
         \/ (node_at (files (world_of game_with_script)) q = None
             /\ q `prefix_of` mirror ["g"; "Backup"] ["g"; "Scripts"; "a.lua"]).
Proof.
  apply (backup_file_fresh ["g"; "Backup"] ["g"; "Scripts"; "a.lua"]
           (txt "original") (world_of game_with_script)).
  - reflexivity.
  - by exists ["Scripts"; "a.lua"].
  - intros [k Hk]. discriminate Hk.
  - reflexivity.
  - intros q d [k Hk].
    change (parent (mirror _ _)) with ["g"; "Backup"; "Scripts"] in Hk.
    destruct q as [|a [|b [|c [|? ?]]]]; simpl in Hk; simplify_eq;
      vm_compute; discriminate.
Defined.

(** ** Restoring as far as it goes *)

(** X14.  [restore_files] is best effort for every entry of the backup.
    When no file stands in the way of the folders to the entry's place in
    the game folder, the loop body returns, whatever the entry and its
    place are, and changes nothing but that place and the folders on the
    way to it.  For a place that is a directory it does and logs nothing.
    Otherwise it logs one record: the restore when the entry is a regular
    file and has been copied to its place, the warning when the entry and
    its place are one and the same file, and the error when the entry is
    no regular file, so that the copy failed; in the last two cases the
    place is as it was. *)
Theorem restore_item_best_effort game_path backup_path item rel w :
  relative_to item backup_path = Some rel ->
  (forall q d, q `prefix_of` parent (joinpath game_path rel) ->
               node_at (files w) q <> Some (File d)) ->
  exists w',
    restore_item game_path backup_path item w = (Ret tt, w')
    /\ (forall q,
          node_at (files w') q = node_at (files w) q
          \/ q `prefix_of` joinpath game_path rel)
    /\ if fs_is_dir (files w) (joinpath game_path rel) then w' = w
       else
         exists r,
           logged w' = logged w ++ [r]
           /\ (r = restoring backup_path (joinpath game_path rel)
               /\ item <> joinpath game_path rel
               /\ (exists data,
                     node_at (files w) item = Some (File data)
                     /\ node_at (files w') (joinpath game_path rel)
                        = Some (File data))
               \/ r = identical_skipping backup_path (joinpath game_path rel)
                  /\ item = joinpath game_path rel
                  /\ node_at (files w') (joinpath game_path rel)
                     = node_at (files w) (joinpath game_path rel)
               \/ r = unable_to_restore (joinpath game_path rel)
                  /\ (forall data, node_at (files w) item <> Some (File data))
                  /\ node_at (files w') (joinpath game_path rel)
                     = node_at (files w) (joinpath game_path rel)).
Proof.
  intros Hrel Hfree.
  destruct (fs_is_dir (files w) (joinpath game_path rel)) eqn:Hdir.
  { exists w. rewrite (restore_item_directory _ _ _ _ _ Hrel Hdir).
    split; [done |]. split; [by left | done]. }
  destruct (restore_item_cases game_path backup_path item rel w Hrel Hdir Hfree)
    as (fs1 & [_ Hadd] & _ & Ht1 & Hrun).
  set (target := joinpath game_path rel) in *.
  assert (Htne : target <> []) by (intros He; by rewrite He in Hdir).
  assert (Hframe : forall q, node_at fs1 q = node_at (files w) q
                             \/ q `prefix_of` target).
  { intros q. destruct (Hadd q) as [Hl|(_ & Hp & _)]; [by left |].
    right. etrans; [exact Hp | apply parent_prefix]. }
  assert (Hfile : forall data,
            node_at fs1 item = Some (File data)
            <-> node_at (files w) item = Some (File data)).
  { intros data. destruct (Hadd item) as [->|(Hn & _ & Hd)]; [done |].
    rewrite Hn, Hd. split; discriminate. }
  rewrite Hrun. eexists. split; [reflexivity |].
  destruct (bool_decide (item = target) && fs_exists fs1 item) eqn:Hs.
  - cbn [files logged]. split; [done |]. eexists. split; [reflexivity |].
    right; left. apply andb_true_iff in Hs as [Hs%bool_decide_eq_true _].
    done.
  - destruct (node_at fs1 item) as [[|data]|] eqn:Hi; cbn [files logged].
    + split; [done |]. eexists. split; [reflexivity |]. right; right.
      split; [done |]. split; [| done].
      intros data Hd%Hfile. discriminate.
    + split.
      * intros q. destruct (decide (target = q)) as [<-|Hq]; [by right |].
        rewrite node_at_insert_ne by done. apply Hframe.
      * eexists. split; [reflexivity |]. left. split; [done |].
        assert (Hne : item <> target).
        { intros He. unfold fs_exists in Hs. rewrite Hi, andb_true_r in Hs.
          by apply bool_decide_eq_false in Hs. }
        split; [done |]. exists data. split; [by apply Hfile |].
        by apply node_at_insert_eq.
    + split; [done |]. eexists. split; [reflexivity |]. right; right.
      split; [done |]. split; [| done].
      intros data Hd%Hfile. discriminate.
Qed.

Definition backup_of_lost_folder : gmap path node :=
  list_to_map
    [ (["g"], Dir);
      (["g"; "Backup"], Dir);
      (["g"; "Backup"; "Scripts"], Dir);
      (["g"; "Backup"; "Scripts"; "a.lua"], File (txt "original")) ].

Lemma restore_item_best_effort_witness :
  exists w',
    restore_item ["g"] ["g"; "Backup"] ["g"; "Backup"; "Scripts"; "a.lua"]
                 (world_of backup_of_lost_folder) = (Ret tt, w')
    /\ (forall q,
          node_at (files w') q = node_at (files (world_of backup_of_lost_folder)) q
          \/ q `prefix_of` joinpath ["g"] ["Scripts"; "a.lua"])
    /\ if fs_is_dir (files (world_of backup_of_lost_folder))
                    (joinpath ["g"] ["Scripts"; "a.lua"])
       then w' = world_of backup_of_lost_folder
       else
         exists r,
           logged w' = logged (world_of backup_of_lost_folder) ++ [r]
           /\ (r = restoring ["g"; "Backup"] (joinpath ["g"] ["Scripts"; "a.lua"])
               /\ ["g"; "Backup"; "Scripts"; "a.lua"]
                  <> joinpath ["g"] ["Scripts"; "a.lua"]
               /\ (exists data,
                     node_at (files (world_of backup_of_lost_folder))
                             ["g"; "Backup"; "Scripts"; "a.lua"]
                     = Some (File data)
                     /\ node_at (files w') (joinpath ["g"] ["Scripts"; "a.lua"])
                        = Some (File data))
               \/ r = identical_skipping ["g"; "Backup"]
                        (joinpath ["g"] ["Scripts"; "a.lua"])
                  /\ ["g"; "Backup"; "Scripts"; "a.lua"]
                     = joinpath ["g"] ["Scripts"; "a.lua"]
                  /\ node_at (files w') (joinpath ["g"] ["Scripts"; "a.lua"])
                     = node_at (files (world_of backup_of_lost_folder))
                               (joinpath ["g"] ["Scripts"; "a.lua"])
               \/ r = unable_to_restore (joinpath ["g"] ["Scripts"; "a.lua"])
                  /\ (forall data,
                        node_at (files (world_of backup_of_lost_folder))
                                ["g"; "Backup"; "Scripts"; "a.lua"]
                        <> Some (File data))
                  /\ node_at (files w') (joinpath ["g"] ["Scripts"; "a.lua"])
                     = node_at (files (world_of backup_of_lost_folder))
                               (joinpath ["g"] ["Scripts"; "a.lua"])).
Proof.
  apply (restore_item_best_effort ["g"] ["g"; "Backup"]
           ["g"; "Backup"; "Scripts"; "a.lua"] ["Scripts"; "a.lua"]
           (world_of backup_of_lost_folder)).
  - reflexivity.
  - intros q d [k Hk].
    change (parent (joinpath _ _)) with ["g"; "Scripts"] in Hk.
    destruct q as [|a [|b [|? ?]]]; simpl in Hk; simplify_eq;
      vm_compute; discriminate.
Defined.

(** ** From the backup and back *)

Lemma bind_Ret_inv {A B} (m : M A) (f : A -> M B) w b w' :
  (m ≫= f) w = (Ret b, w') ->
  exists a w1, m w = (Ret a, w1) /\ f a w1 = (Ret b, w').
Proof.
  unfold mbind, M_bind. destruct (m w) as [[a|e] w1]; [by eexists _, _ | done].
Qed.

Lemma keeps_files_try_except {A} (m : M A) h :
  keeps_files m ->
  (forall e m', h e = Some m' -> keeps_files m') ->
  keeps_files (try_except m h).
Proof.
  intros Hm Hh w. unfold try_except. specialize (Hm w).
  destruct (m w) as [[a|e] w1]; cbn [snd] in *; [done |].
  destruct (h e) as [m'|] eqn:He; [| done].
  eapply same_regular_files_trans; [exact Hm | by apply (Hh e m')].
Qed.

Lemma keeps_files_is_dir p : keeps_files (is_dir p).
Proof. by intros w q data. Qed.

Lemma keeps_files_mkdir_upto n : forall parents exist_ok p,
  keeps_files (mkdir_upto n parents exist_ok p).
Proof.
  assert (Hcheck : forall exist_ok p e,
    keeps_files (d ← is_dir p;
                 if negb exist_ok || negb d then raise e else mret tt)).
  { intros exist_ok p e. apply keeps_files_bind; [apply keeps_files_is_dir |].
    intros d. apply keeps_files_if;
      [apply keeps_files_raise | apply (keeps_files_ret tt)]. }
  induction n as [|n IH]; intros parents exist_ok p; cbn [mkdir_upto];
    (apply keeps_files_try_except; [apply keeps_files_os_mkdir |]);
    intros e m' He;
    destruct (is_FileNotFoundError e);
    repeat match type of He with
           | (if ?b then _ else _) = _ => destruct b
           end; simplify_eq; try apply Hcheck.
  apply keeps_files_bind; [apply IH | intros _; apply IH].
Qed.

(** A backup that returns has left the bytes of the file in its entry. *)
Lemma backup_file_snapshot backup_path f data w w1 :
  node_at (files w) f = Some (File data) ->
  backup_file backup_path f w = (Ret tt, w1) ->
  files w1 !! mirror backup_path f = Some (File data).
Proof.
  intros Hf Hrun. unfold backup_file, mirror in *.
  destruct (relative_to f (parent backup_path)) as [rel|]; [| done].
  cbn [default from_option id]. set (d := joinpath backup_path rel) in *.
  apply bind_Ret_inv in Hrun as (e & w0 & He & Hrun).
  injection He as <- <-.
  apply bind_Ret_inv in Hrun as ([] & w2 & Hpre & Hrun).
  assert (Hkeep : same_regular_files w w2).
  { replace w2 with
      ((if negb (fs_exists (files w) (parent d))
        then LOGGER_debug ("Creating folder " +:+ quoted "%s") [APath (parent d)] ;;
             mkdir true false (parent d)
        else mret tt) w).2 by (by rewrite Hpre).
    apply keeps_files_if; [| apply (keeps_files_ret tt)].
    apply keeps_files_bind; [apply keeps_files_log |].
    intros _. apply keeps_files_mkdir_upto. }
  assert (Hf2 : node_at (files w2) f = Some (File data)).
  { pose proof (node_at_None (files w) f) as Hn.
    destruct f as [|x f']; [discriminate Hf |]. apply Hkeep, Hf. }
  apply bind_Ret_inv in Hrun as (dir & w3 & Hdir & Hrun).
  unfold is_dir in Hdir. unfold_M. injection Hdir as <- <-.
  unfold fs_is_dir in Hrun. rewrite Hf2 in Hrun.
  cbn [files logged threshold echoed answers] in Hrun.
  match type of Hrun with
  | copyfile ?a ?b ?w' = _ =>
      destruct (copyfile_cases a b w') as [(data' & Hd & Hc)|(e & Hc & _)];
        rewrite Hc in Hrun; [| done]; cbn [files] in Hd
  end.
  injection Hrun as <-. cbn [files]. rewrite lookup_insert_eq. congruence.
Qed.

(** X15.  What [backup_files] has saved of a file, [restore_files] puts
    back where it came from.  After a backup of the file that returned,
    and whatever has become of the file since, the loop body of the
    restore for its entry, when the entry is as the backup left it, leaves
    the file with the bytes it had at the backup and logs the restore:
    that is so when no directory has taken the place of the file and no
    regular file the place of one of its folders.  When a directory has
    taken the place of the file, nothing is restored. *)
Theorem backup_restore_round_trip backup_path f data w w1 w2 :
  node_at (files w) f = Some (File data) ->
  ~ backup_path `prefix_of` f ->
  backup_file backup_path f w = (Ret tt, w1) ->
  files w2 !! mirror backup_path f = files w1 !! mirror backup_path f ->
  (fs_is_dir (files w2) f = false ->
   (forall q d, q `prefix_of` parent f -> node_at (files w2) q <> Some (File d)) ->
   exists w3,
     restore_item (parent backup_path) backup_path (mirror backup_path f) w2
     = (Ret tt, w3)
     /\ node_at (files w3) f = Some (File data)
     /\ logged w3 = logged w2 ++ [restoring backup_path f])
  /\ (fs_is_dir (files w2) f = true ->
      restore_item (parent backup_path) backup_path (mirror backup_path f) w2
      = (Ret tt, w2)).
Proof.
  intros Hf Hout Hrun Hsame.
  pose proof (backup_file_snapshot _ _ _ _ _ Hf Hrun) as Hsnap.
  rewrite <- Hsame in Hsnap. unfold mirror in *.
  destruct (relative_to f (parent backup_path)) as [rel|] eqn:Hrel;
    [| unfold backup_file in Hrun; by rewrite Hrel in Hrun].
  cbn [default from_option id] in *.
  apply relative_to_app in Hrel. subst f.
  assert (Hne : joinpath backup_path rel <> joinpath (parent backup_path) rel).
  { intros He. apply Hout. unfold joinpath in He. rewrite <- He.
    by apply prefix_app_r. }
  assert (Hitem : node_at (files w2) (joinpath backup_path rel)
                  = Some (File data)).
  { destruct (joinpath backup_path rel) eqn:Hj; [| done].
    destruct Hout. apply app_eq_nil in Hj as [-> _]. apply prefix_nil. }
  pose proof (relative_to_join backup_path rel) as Hr.
  split.
  - intros Hdir Hfree.
    destruct (restore_item_cases (parent backup_path) backup_path
                (joinpath backup_path rel) rel w2 Hr Hdir Hfree)
      as (fs1 & [_ Hadd] & _ & _ & Hres).
    assert (Hi1 : node_at fs1 (joinpath backup_path rel) = Some (File data)).
    { destruct (Hadd (joinpath backup_path rel)) as [->|(Hn & _)];
        [done | congruence]. }
    rewrite Hres, Hi1, bool_decide_eq_false_2 by done. cbn [andb].
    eexists. split; [reflexivity |]. cbn [files logged]. split; [| done].
    apply node_at_insert_eq. intros He. unfold joinpath in He.
    by rewrite He in Hf.
  - intros Hdir. by apply (restore_item_directory _ _ _ rel).
Qed.

Lemma backup_restore_round_trip_witness :
  let w1 := (backup_file ["g"; "Backup"] ["g"; "Scripts"; "a.lua"]
               (world_of game_with_script)).2 in
  let w2 := world_of (<[["g"; "Scripts"; "a.lua"] := File (txt "modded")]>
                        (files w1)) in
  exists w3,
    restore_item (parent ["g"; "Backup"]) ["g"; "Backup"]
                 (mirror ["g"; "Backup"] ["g"; "Scripts"; "a.lua"]) w2
    = (Ret tt, w3)
    /\ node_at (files w3) ["g"; "Scripts"; "a.lua"]
       = Some (File (txt "original"))
    /\ logged w3
       = logged w2 ++ [restoring ["g"; "Backup"] ["g"; "Scripts"; "a.lua"]].
Proof.
  cbv zeta.
  apply (backup_restore_round_trip ["g"; "Backup"] ["g"; "Scripts"; "a.lua"]
           (txt "original") (world_of game_with_script)
           (backup_file ["g"; "Backup"] ["g"; "Scripts"; "a.lua"]
              (world_of game_with_script)).2).
  - reflexivity.
  - intros [k Hk]. discriminate Hk.
  - vm_compute. reflexivity.
  - vm_compute. reflexivity.
  - vm_compute. reflexivity.
  - intros q d [k Hk]. change (parent _) with ["g"; "Scripts"] in Hk.
    destruct q as [|a [|b [|? ?]]]; simpl in Hk; simplify_eq;
      vm_compute; discriminate.
Defined.

(** ** What can be raised *)

Definition raises_only {A} (P : exn -> Prop) (m : M A) : Prop :=
  forall w e w', m w = (Raise e, w') -> P e.

(** The errors of the file operations: an OSError, or the ValueError of
    [relative_to]. *)
Definition file_error (e : exn) : Prop :=
  is_OSError e = true \/ exists p base, e = ValueError_relative_to p base.

Lemma bind_Raise_inv {A B} (m : M A) (f : A -> M B) w e w' :
  (m ≫= f) w = (Raise e, w') ->
  m w = (Raise e, w')
  \/ exists a w1, m w = (Ret a, w1) /\ f a w1 = (Raise e, w').
Proof.
  unfold mbind, M_bind. destruct (m w) as [[a|e1] w1]; intros H.
  - right. by eexists _, _.
  - left. by injection H as -> ->.
Qed.

Lemma raises_only_ret {A} P (a : A) : raises_only P (mret a).
Proof. by intros w e w'. Qed.

Lemma raises_only_raise {A} (P : exn -> Prop) e : P e -> raises_only P (@raise A e).
Proof. intros He w e' w' [= <- _]. exact He. Qed.

Lemma raises_only_bind {A B} P (m : M A) (f : A -> M B) :
  raises_only P m -> (forall a, raises_only P (f a)) -> raises_only P (m ≫= f).
Proof.
  intros Hm Hf w e w' [H|(a & w1 & _ & H)]%bind_Raise_inv;
    [by eapply Hm | by eapply Hf].
Qed.

Lemma raises_only_if {A} P (b : bool) (m1 m2 : M A) :
  raises_only P m1 -> raises_only P m2 -> raises_only P (if b then m1 else m2).
Proof. by destruct b. Qed.

Lemma raises_only_log P l f a exc : raises_only P (log l f a exc).
Proof. by intros w e w'. Qed.

Lemma raises_only_get_files P : raises_only P get_files.
Proof. by intros w e w'. Qed.

Lemma raises_only_exists P p : raises_only P (exists_ p).
Proof. by intros w e w'. Qed.

Lemma raises_only_is_dir P p : raises_only P (is_dir p).
Proof. by intros w e w'. Qed.

Lemma raises_only_try_except {A} (P Q : exn -> Prop) (m : M A) h :
  raises_only Q m ->
  (forall e, Q e -> match h e with
                    | Some m' => raises_only P m'
                    | None => P e
                    end) ->
  raises_only P (try_except m h).
Proof.
  intros Hm Hh w e w'. unfold try_except.
  destruct (m w) as [[a|e1] w1] eqn:Hr; [done |].
  specialize (Hh e1 (Hm _ _ _ Hr)). destruct (h e1) as [m'|].
  - apply Hh.
  - by intros [= <- _].
Qed.

Lemma raises_only_for_each {A} P (f : A -> M unit) l :
  (forall x, raises_only P (f x)) -> raises_only P (for_each f l).
Proof.
  intros Hf. induction l as [|x l IH]; cbn [for_each].
  - apply (raises_only_ret P tt).
  - apply raises_only_bind; [apply Hf | by intros _].
Qed.

Lemma raises_only_weaken {A} (P Q : exn -> Prop) (m : M A) :
  (forall e, P e -> Q e) -> raises_only P m -> raises_only Q m.
Proof. intros HPQ Hm w e w' H. by eapply HPQ, Hm. Qed.

Lemma file_error_OSError e : is_OSError e = true -> file_error e.
Proof. by left. Qed.

Lemma raises_only_os_mkdir p : raises_only file_error (os_mkdir p).
Proof.
  intros w e w'. unfold os_mkdir. unfold_M.
  destruct (node_at (files w) p); [intros [= <- _]; by left |].
  destruct (node_at (files w) (parent p)) as [[|d]|];
    [done | intros [= <- _]; by left
    | intros [= <- _]; left; apply not_found_OSError].
Qed.

Lemma raises_only_mkdir_upto n : forall parents exist_ok p,
  raises_only file_error (mkdir_upto n parents exist_ok p).
Proof.
  assert (Hcheck : forall exist_ok p e, file_error e ->
    raises_only file_error
      (d ← is_dir p; if negb exist_ok || negb d then raise e else mret tt)).
  { intros exist_ok p e He. apply raises_only_bind; [apply raises_only_is_dir |].
    intros d. apply raises_only_if;
      [by apply raises_only_raise | apply (raises_only_ret _ tt)]. }
  induction n as [|n IH]; intros parents exist_ok p; cbn [mkdir_upto];
    (eapply raises_only_try_except; [apply raises_only_os_mkdir |]);
    intros e He; destruct (is_FileNotFoundError e);
    repeat match goal with
           | |- context [if ?b then _ else _] => destruct b
           end; try done; try by apply Hcheck.
  apply raises_only_bind; [apply IH | intros _; apply IH].
Qed.

Lemma raises_only_copyfile src dst : raises_only file_error (copyfile src dst).
Proof.
  intros w e w' H.
  destruct (copyfile_cases src dst w) as [(data & _ & Hc)|(e1 & Hc & He)];
    rewrite Hc in H; [done |]. injection H as <- _. by left.
Qed.

Lemma raises_only_rmtree p : raises_only file_error (rmtree p).
Proof.
  intros w e w'. unfold rmtree. unfold_M.
  destruct (node_at (files w) p) as [[|d]|];
    [done | intros [= <- _]; by left
    | intros [= <- _]; left; apply not_found_OSError].
Qed.

Lemma raises_only_any_iterdir p : raises_only file_error (any_iterdir p).
Proof.
  intros w e w'. unfold any_iterdir. unfold_M.
  destruct (node_at (files w) p) as [[|d]|];
    [done | intros [= <- _]; by left
    | intros [= <- _]; left; apply not_found_OSError].
Qed.

Lemma raises_only_restore_item game_path backup_path item :
  raises_only file_error (restore_item game_path backup_path item).
Proof.
  unfold restore_item.
  destruct (relative_to item backup_path) as [rel|];
    [| apply raises_only_raise; right; by eexists _, _].
  apply raises_only_bind; [apply raises_only_is_dir |]. intros d.
  apply raises_only_if; [apply raises_only_mkdir_upto |].
  apply raises_only_bind; [apply raises_only_mkdir_upto |]. intros _.
  apply (raises_only_try_except file_error file_error).
  - apply raises_only_bind; [apply raises_only_copyfile |].
    intros _. apply raises_only_log.
  - intros e He. destruct (is_SameFileError e); [apply raises_only_log |].
    destruct (is_OSError e); [apply raises_only_log | done].
Qed.

Lemma raises_only_restore_files game_path backup_path :
  raises_only file_error (restore_files game_path backup_path).
Proof.
  unfold restore_files. apply raises_only_bind.
  - unfold glob_all. apply raises_only_bind; [apply raises_only_get_files |].
    intros fs. apply raises_only_ret.
  - intros items. apply raises_only_for_each. intros item.
    apply raises_only_restore_item.
Qed.

(** ** After an uninstall *)

Lemma rmtree_Ret p w w1 :
  rmtree p w = (Ret tt, w1) ->
  files w1 = filter (fun kv => ¬ p `prefix_of` kv.1) (files w).
Proof.
  unfold rmtree. unfold_M.
  destruct (node_at (files w) p) as [[|d]|]; [| done | done].
  by intros [= <-].
Qed.

Lemma fs_exists_filter (P : path * node -> Prop) `{!forall kv, Decision (P kv)}
    fs q :
  fs_exists fs q = false -> fs_exists (filter P fs) q = false.
Proof.
  unfold fs_exists. destruct q as [|x q]; [done |].
  change (node_at fs (x :: q)) with (fs !! (x :: q)).
  change (node_at (filter P fs) (x :: q)) with (filter P fs !! (x :: q)).
  destruct (fs !! (x :: q)) eqn:E; [done |]. intros _.
  rewrite map_lookup_filter_None_2; [done | by left].
Qed.

Lemma fs_exists_rmtree fs p :
  p <> [] ->
  fs_exists (filter (fun kv => ¬ p `prefix_of` kv.1) fs) p = false.
Proof.
  intros Hp. unfold fs_exists. destruct p as [|x p]; [done |].
  change (node_at ?m (x :: p)) with (m !! (x :: p)).
  rewrite map_lookup_filter_None_2; [done |].
  right. intros nd _ Hn. by apply Hn.
Qed.

Lemma not_file_error_Exit : ~ file_error Exit.
Proof. by intros [H|(p & b & H)]. Qed.

Lemma not_file_error_Abort : ~ file_error Abort.
Proof. by intros [H|(p & b & H)]. Qed.

(** [uninstall_mods] up to its [raise typer.Exit()]. *)
Lemma uninstall_mods_inv game_path backup_path modfolder_path w o w' :
  uninstall_mods game_path backup_path modfolder_path w = (o, w') ->
  (exists e, o = Raise e /\ file_error e)
  \/ (o = Raise Exit
      /\ exists w1,
           (fs_exists (files w) backup_path = false /\ files w1 = files w
            \/ exists w0,
                 files w1 = filter (fun kv => ¬ backup_path `prefix_of` kv.1)
                                   (files w0))
           /\ (fs_exists (files w1) modfolder_path = false
               /\ files w' = files w1
               \/ files w' = filter (fun kv => ¬ modfolder_path `prefix_of` kv.1)
                                    (files w1))).
Proof.
  unfold uninstall_mods. intros H.
  unfold mbind at 1, M_bind at 1 in H.
  change (exists_ backup_path w) with (Ret (fs_exists (files w) backup_path), w) in H.
  cbn beta iota in H. unfold mbind at 1, M_bind at 1 in H.
  match type of H with
  | (let (_, _) := ?m w in _) = _ =>
      assert (Hr1 : raises_only file_error m);
        [| destruct (m w) as [[[]|e1] w1] eqn:H1]
  end.
  { apply raises_only_if; [| apply raises_only_log].
    apply raises_only_bind; [apply raises_only_any_iterdir |]. intros n.
    apply raises_only_bind.
    - apply raises_only_if; [| apply raises_only_log].
      apply raises_only_bind; [apply raises_only_log |].
      intros _. apply raises_only_restore_files.
    - intros _. apply raises_only_bind; [apply raises_only_log |].
      intros _. apply raises_only_rmtree. }
  2: { injection H as <- <-. left. exists e1. split; [done |]. by eapply Hr1. }
  assert (Hb : fs_exists (files w) backup_path = false /\ files w1 = files w
               \/ exists w0, files w1 =
                    filter (fun kv => ¬ backup_path `prefix_of` kv.1) (files w0)).
  { destruct (fs_exists (files w) backup_path).
    - right. apply bind_Ret_inv in H1 as (n & wa & _ & H1).
      apply bind_Ret_inv in H1 as ([] & wb & _ & H1).
      apply bind_Ret_inv in H1 as ([] & wc & _ & H1).
      exists wc. by apply rmtree_Ret.
    - left. split; [done |]. unfold LOGGER_warning in H1. rewrite log_run in H1.
      by injection H1 as <-. }
  clear H1 Hr1.
  unfold mbind at 1, M_bind at 1 in H.
  change (exists_ modfolder_path w1)
    with (Ret (fs_exists (files w1) modfolder_path), w1) in H.
  cbn beta iota in H. unfold mbind at 1, M_bind at 1 in H.
  destruct (fs_exists (files w1) modfolder_path) eqn:Hm.
  - unfold mbind at 1, M_bind at 1 in H.
    destruct (rmtree modfolder_path w1) as [[[]|e2] w2] eqn:H2.
    + apply rmtree_Ret in H2. unfold LOGGER_info in H. rewrite log_run in H.
      unfold raise in H. injection H as <- <-. right. split; [done |].
      exists w1. split; [done |]. right. exact H2.
    + injection H as <- <-. left. exists e2. split; [done |].
      by eapply raises_only_rmtree.
  - unfold mret, M_ret, raise in H. injection H as <- <-. right.
    split; [done |]. exists w1. split; [done |]. by left.
Qed.

Lemma uninstall_mods_not_Ret game_path backup_path modfolder_path w a w' :
  uninstall_mods game_path backup_path modfolder_path w <> (Ret a, w').
Proof.
  intros H. by apply uninstall_mods_inv in H as [(e & [=] & _)|([=] & _)].
Qed.

(** X16.  [uninstall_mods] never returns: it ends with [typer.Exit], or
    with the error of a file operation of the restore or of the removal of
    the two folders. *)
Theorem uninstall_mods_raises game_path backup_path modfolder_path w :
  exists e w',
    uninstall_mods game_path backup_path modfolder_path w = (Raise e, w')
    /\ (e = Exit \/ file_error e).
Proof.
  destruct (uninstall_mods game_path backup_path modfolder_path w)
    as [o w'] eqn:H.
  apply uninstall_mods_inv in H as [(e & -> & He)|(-> & _)].
  - exists e, w'. split; [done | by right].
  - exists Exit, w'. split; [done | by left].
Qed.

Lemma uninstall_mods_Exit_gone game_path backup_path modfolder_path w w' :
  backup_path <> [] ->
  modfolder_path <> [] ->
  uninstall_mods game_path backup_path modfolder_path w = (Raise Exit, w') ->
  fs_exists (files w') backup_path = false
  /\ fs_exists (files w') modfolder_path = false.
Proof.
  intros Hb Hm H.
  apply uninstall_mods_inv in H as [(e & Heq & He)|(_ & w1 & H1 & H2)];
    [injection Heq as <-; by destruct not_file_error_Exit |].
  assert (Hb1 : fs_exists (files w1) backup_path = false).
  { destruct H1 as [[Hn ->]|[w0 ->]]; [done | by apply fs_exists_rmtree]. }
  destruct H2 as [[Hn ->] | ->]; [done |]. split.
  - by apply fs_exists_filter.
  - by apply fs_exists_rmtree.
Qed.

(** X17.  When [uninstall_mods] ends with [typer.Exit], the backup folder
    and the mods folder are there no more, whatever the restore did. *)
Theorem uninstall_removes_folders game_path backup_path modfolder_path w w' :
  backup_path <> [] ->
  modfolder_path <> [] ->
  uninstall_mods game_path backup_path modfolder_path w = (Raise Exit, w') ->
  fs_exists (files w') backup_path = false
  /\ fs_exists (files w') modfolder_path = false.
Proof. apply uninstall_mods_Exit_gone. Qed.

Definition installed : gmap path node :=
  list_to_map
    [ (["g"], Dir);
      (["g"; "a.txt"], File (txt "modded"));
      (["g"; "Backup"], Dir);
      (["g"; "Backup"; "a.txt"], File (txt "original"));
      (["g"; "Mods"], Dir);
      (["g"; "Mods"; "m"], Dir);
      (["g"; "Mods"; "m"; "modfile.txt"], File (txt "import a.lua")) ].

Lemma uninstall_removes_folders_witness :
  fs_exists
    (files (uninstall_mods ["g"] ["g"; "Backup"] ["g"; "Mods"]
              (world_of installed)).2) ["g"; "Backup"] = false
  /\ fs_exists
       (files (uninstall_mods ["g"] ["g"; "Backup"] ["g"; "Mods"]
                 (world_of installed)).2) ["g"; "Mods"] = false.
Proof.
  apply (uninstall_removes_folders ["g"] ["g"; "Backup"] ["g"; "Mods"]
           (world_of installed)); [done | done |].
  vm_compute. reflexivity.
Defined.

(** ** A run of the command line *)

Lemma bind_ignore_Ret_inv {A} (m : M unit) (f : M A) w b w' :
  (m ;; f) w = (Ret b, w') ->
  exists w1, m w = (Ret tt, w1) /\ f w1 = (Ret b, w').
Proof. intros ([] & w1 & H1 & H2)%bind_Ret_inv. by exists w1. Qed.

Lemma typer_confirm_inv w o w' :
  typer_confirm w = (o, w') ->
  files w' = files w /\ logged w' = logged w /\ echoed w' = echoed w.
Proof.
  unfold typer_confirm. destruct (answers w); by intros [= <- <-].
Qed.

(** X18.  [cli] returns, rather than ends in an exception, only on this
    path: without [--clean], with the mods folder there; the backup folder
    is there afterwards, made by the run if it was not, nothing else is
    changed in the file system, and the one thing done for the mods is the
    echo of the script paths of the game. *)
Theorem cli_returns game_path game clean verbose w w' :
  cli game_path game clean verbose w = (Ret tt, w') ->
  clean = false
  /\ fs_exists (files w) (joinpath game_path ["Mods"]) = true
  /\ fs_exists (files w') (joinpath game_path ["Backup"]) = true
  /\ (files w' = files w
      \/ files w' = <[joinpath game_path ["Backup"] := Dir]> (files w))
  /\ echoed w' = echoed w ++ [script_path (default (guess_game game_path) game)].
Proof.
  unfold cli. intros H.
  apply bind_ignore_Ret_inv in H as (wa & Ha & H).
  assert (Hwa : files wa = files w /\ echoed wa = echoed w)
    by (destruct verbose; by injection Ha as <-).
  clear Ha. cbv zeta in H.
  apply bind_Ret_inv in H as (refused & wb & Hb & H).
  assert (Hwb : files wb = files wa /\ echoed wb = echoed wa).
  { destruct (negb _); [| by injection Hb as _ <-].
    apply bind_Ret_inv in Hb as (b & wx & Hx & Hb).
    apply typer_confirm_inv in Hx as (? & _ & ?). by injection Hb as _ <-. }
  clear Hb.
  apply bind_ignore_Ret_inv in H as (wc & Hc & H).
  assert (wc = wb) as -> by (destruct refused; [done | by injection Hc]).
  clear Hc.
  apply bind_ignore_Ret_inv in H as (wd & Hd & H).
  assert (clean = false /\ wd = wb) as [-> ->].
  { destruct clean; [| by injection Hd].
    by apply uninstall_mods_not_Ret in Hd. }
  clear Hd.
  apply bind_Ret_inv in H as (e & we & He & H).
  injection He as <- <-.
  apply bind_ignore_Ret_inv in H as (wf & Hf & H).
  destruct (fs_exists (files wb) (joinpath game_path ["Mods"])) eqn:Hmods.
  2: { cbn [negb] in Hf.
       apply bind_ignore_Ret_inv in Hf as (w1 & _ & Hf).
       apply bind_Ret_inv in Hf as (create & w2 & _ & Hf).
       by apply bind_ignore_Ret_inv in Hf as (w3 & _ & Hf). }
  cbn [negb] in Hf. injection Hf as <-.
  apply bind_Ret_inv in H as (e & we & He & H).
  injection He as <- <-.
  apply bind_ignore_Ret_inv in H as (wg & Hg & H).
  apply bind_Ret_inv in H as (changes & wh & Hh & H).
  injection H as <-. rewrite read_modfiles_run in Hh. injection Hh as _ <-.
  cbn [files echoed]. destruct Hwa as [Hfa Hea], Hwb as [Hfb Heb].
  rewrite <- Hfa, <- Hfb, <- Hea, <- Heb.
  split; [done |]. split; [done |].
  assert (Hbackup : fs_exists (files wg) (joinpath game_path ["Backup"]) = true
                    /\ (files wg = files wb
                        \/ files wg = <[joinpath game_path ["Backup"] := Dir]>
                                        (files wb))
                    /\ echoed wg = echoed wb).
  { destruct (fs_exists (files wb) (joinpath game_path ["Backup"])) eqn:Hex.
    - cbn [negb] in Hg. injection Hg as <-. auto.
    - cbn [negb] in Hg. apply bind_ignore_Ret_inv in Hg as (w1 & H1 & Hg).
      unfold LOGGER_debug in H1. rewrite log_run in H1. injection H1 as <-.
      unfold mkdir in Hg. rewrite mkdir_plain_run in Hg. cbn [files add_logs] in Hg.
      destruct (node_at (files wb) (joinpath game_path ["Backup"])); [done |].
      destruct (node_at (files wb) (parent (joinpath game_path ["Backup"])))
        as [[|d]|]; [| done | done].
      injection Hg as <-. cbn [files echoed add_logs]. split; [| auto].
      unfold fs_exists. rewrite node_at_insert_eq; [done |].
      unfold joinpath. by destruct game_path. }
  destruct Hbackup as (Hex & Hfs & Hec). by rewrite Hec.
Qed.

Definition ready_to_install : gmap path node :=
  list_to_map
    [ (["games"], Dir);
      (["games"; "Pyre"], Dir);
      (["games"; "Pyre"; "Content"], Dir);
      (["games"; "Pyre"; "Content"; "Mods"], Dir) ].

Lemma cli_returns_witness :
  let w' := (cli ["games"; "Pyre"; "Content"] None false false
               (world_of ready_to_install)).2 in
  false = false
  /\ fs_exists (files (world_of ready_to_install))
               (joinpath ["games"; "Pyre"; "Content"] ["Mods"]) = true
  /\ fs_exists (files w') (joinpath ["games"; "Pyre"; "Content"] ["Backup"]) = true
  /\ (files w' = files (world_of ready_to_install)
      \/ files w' = <[joinpath ["games"; "Pyre"; "Content"] ["Backup"] := Dir]>
                      (files (world_of ready_to_install)))
  /\ echoed w' = echoed (world_of ready_to_install)
                 ++ [script_path (default (guess_game ["games"; "Pyre"; "Content"]) None)].
Proof.
  cbv zeta.
  apply (cli_returns ["games"; "Pyre"; "Content"] None false false
           (world_of ready_to_install)).
  vm_compute. reflexivity.
Defined.

Lemma bind_ignore_Raise_inv {A} (m : M unit) (f : M A) w e w' :
  (m ;; f) w = (Raise e, w') ->
  m w = (Raise e, w') \/ exists w1, m w = (Ret tt, w1) /\ f w1 = (Raise e, w').
Proof.
  intros [H|([] & w1 & H1 & H2)]%bind_Raise_inv; [by left | right; by exists w1].
Qed.

(** X19.  When [cli] ends with [typer.Abort], because the game that was
    chosen is refused at the prompt or the input ends at a prompt, it has
    changed nothing in the file system. *)
Theorem cli_abort_changes_nothing game_path game clean verbose w w' :
  cli game_path game clean verbose w = (Raise Abort, w') ->
  files w' = files w.
Proof.
  unfold cli. intros H.
  apply bind_ignore_Raise_inv in H as [H|(wa & Ha & H)];
    [by destruct verbose |].
  assert (Hwa : files wa = files w) by (destruct verbose; by injection Ha as <-).
  clear Ha. cbv zeta in H. rewrite <- Hwa. clear Hwa w.
  apply bind_Raise_inv in H as [H|(refused & wb & Hb & H)].
  { destruct (negb _); [| done].
    apply bind_Raise_inv in H as [H|(b & wx & _ & H)]; [| done].
    by apply typer_confirm_inv in H as (? & _). }
  assert (Hwb : files wb = files wa).
  { destruct (negb _); [| by injection Hb as _ <-].
    apply bind_Ret_inv in Hb as (b & wx & Hx & Hb).
    apply typer_confirm_inv in Hx as (? & _). by injection Hb as _ <-. }
  clear Hb. rewrite <- Hwb. clear Hwb wa.
  apply bind_ignore_Raise_inv in H as [H|(wc & Hc & H)].
  { destruct refused; [by injection H as <- | done]. }
  assert (wc = wb) as -> by (destruct refused; [done | by injection Hc]).
  clear Hc.
  apply bind_ignore_Raise_inv in H as [H|(wd & Hd & H)].
  { destruct clean; [| done].
    apply uninstall_mods_inv in H as [(e & [= <-] & He)|([=] & _)].
    by destruct not_file_error_Abort. }
  assert (wd = wb) as ->.
  { destruct clean; [| by injection Hd].
    by apply uninstall_mods_not_Ret in Hd. }
  clear Hd.
  apply bind_Raise_inv in H as [H|(e & we & He & H)]; [done |].
  injection He as <- <-.
  apply bind_ignore_Raise_inv in H as [H|(wf & Hf & H)].
  { destruct (negb _); [| done].
    apply bind_ignore_Raise_inv in H as [H|(w1 & H1 & H)]; [done |].
    unfold LOGGER_warning in H1. rewrite log_run in H1. injection H1 as <-.
    apply bind_Raise_inv in H as [H|(create & w2 & _ & H)].
    { by apply typer_confirm_inv in H as (? & _). }
    apply bind_ignore_Raise_inv in H as [H|(w3 & _ & H)]; [| done].
    destruct create; [| done].
    apply bind_ignore_Raise_inv in H as [H|(w4 & _ & H)]; [| done].
    apply raises_only_mkdir_upto in H. by destruct not_file_error_Abort. }
  assert (wf = wb) as ->.
  { destruct (negb _); [| by injection Hf].
    apply bind_ignore_Ret_inv in Hf as (w1 & _ & Hf).
    apply bind_Ret_inv in Hf as (create & w2 & _ & Hf).
    by apply bind_ignore_Ret_inv in Hf as (w3 & _ & Hf). }
  clear Hf.
  apply bind_Raise_inv in H as [H|(e & we & He & H)]; [done |].
  injection He as <- <-.
  apply bind_ignore_Raise_inv in H as [H|(wg & _ & H)].
  { destruct (negb _); [| done].
    apply bind_ignore_Raise_inv in H as [H|(w1 & _ & H)]; [done |].
    apply raises_only_mkdir_upto in H. by destruct not_file_error_Abort. }
  by apply bind_Raise_inv in H as [H|(changes & wh & _ & H)].
Qed.

Lemma cli_abort_changes_nothing_witness :
  files (cli ["games"; "Pyre"; "Content"] (Some HADES) true false
           (World installed [] INFO [] [false])).2
  = files (World installed [] INFO [] [false]).
Proof.
  apply (cli_abort_changes_nothing ["games"; "Pyre"; "Content"] (Some HADES)
           true false (World installed [] INFO [] [false])).
  vm_compute. reflexivity.
Defined.

(** X20.  A run of [cli] with [--clean] that ends with [typer.Exit] has
    left neither the backup folder nor the mods folder of the game. *)
Theorem cli_clean_removes_folders game_path game verbose w w' :
  cli game_path game true verbose w = (Raise Exit, w') ->
  fs_exists (files w') (joinpath game_path ["Backup"]) = false
  /\ fs_exists (files w') (joinpath game_path ["Mods"]) = false.
Proof.
  unfold cli. intros H.
  apply bind_ignore_Raise_inv in H as [H|(wa & _ & H)];
    [by destruct verbose |].
  cbv zeta in H.
  apply bind_Raise_inv in H as [H|(refused & wb & _ & H)].
  { destruct (negb _); [| done].
    apply bind_Raise_inv in H as [H|(b & wx & _ & H)]; [| done].
    unfold typer_confirm in H. by destruct (answers wa). }
  apply bind_ignore_Raise_inv in H as [H|(wc & _ & H)];
    [by destruct refused |].
  apply bind_ignore_Raise_inv in H as [H|(wd & Hd & H)];
    [| by apply uninstall_mods_not_Ret in Hd].
  apply uninstall_mods_Exit_gone in H; [done | |];
    unfold joinpath; by destruct game_path.
Qed.

Lemma cli_clean_removes_folders_witness :
  fs_exists (files (cli ["g"] (Some HADES) true false (world_of installed)).2)
            (joinpath ["g"] ["Backup"]) = false
  /\ fs_exists (files (cli ["g"] (Some HADES) true false (world_of installed)).2)
               (joinpath ["g"] ["Mods"]) = false.
Proof.
  apply (cli_clean_removes_folders ["g"] (Some HADES) false
           (world_of installed)).
  vm_compute. reflexivity.
Defined.

Lemma bind_inv {A B} (m : M A) (f : A -> M B) w o w' :
  (m ≫= f) w = (o, w') ->
  (exists e, m w = (Raise e, w') /\ o = Raise e)
  \/ exists a w1, m w = (Ret a, w1) /\ f a w1 = (o, w').
Proof.
  unfold mbind, M_bind. destruct (m w) as [[a|e] w1]; intros H.
  - right. by eexists _, _.
  - left. exists e. by injection H as <- <-.
Qed.

(** X21.  Without a mods folder a run of [cli] without [--clean] stops
    before anything is done for the mods: it ends with [typer.Exit],
    [typer.Abort] or the error of making the folder, and has made the mods
    folder, on a yes at the prompt, or changed nothing in the file
    system. *)
Theorem cli_without_mods_folder game_path game verbose w o w' :
  fs_exists (files w) (joinpath game_path ["Mods"]) = false ->
  cli game_path game false verbose w = (o, w') ->
  (exists e, o = Raise e /\ (e = Exit \/ e = Abort \/ file_error e))
  /\ (files w' = files w
      \/ files w' = <[joinpath game_path ["Mods"] := Dir]> (files w)).
Proof.
  unfold cli. intros Hmods H.
  apply bind_inv in H as [(e & H & _)|([] & wa & Ha & H)];
    [by destruct verbose |].
  assert (Hwa : files wa = files w) by (destruct verbose; by injection Ha as <-).
  clear Ha. cbv zeta in H. rewrite <- Hwa in *. clear Hwa w.
  apply bind_inv in H as [(e & H & ->)|(refused & wb & Hb & H)].
  { destruct (negb _); [| done].
    apply bind_Raise_inv in H as [H|(b & wx & _ & H)]; [| done].
    assert (e = Abort) as ->
      by (unfold typer_confirm in H; destruct (answers wa); by injection H).
    apply typer_confirm_inv in H as (-> & _). split; [| by left].
    exists Abort. auto. }
  assert (Hwb : files wb = files wa).
  { destruct (negb _); [| by injection Hb as _ <-].
    apply bind_Ret_inv in Hb as (b & wx & Hx & Hb).
    apply typer_confirm_inv in Hx as (? & _). by injection Hb as _ <-. }
  clear Hb. rewrite <- Hwb in *. clear Hwb wa.
  apply bind_inv in H as [(e & H & ->)|([] & wc & Hc & H)].
  { destruct refused; [| done]. injection H as <- <-.
    split; [exists Abort; auto | by left]. }
  assert (wc = wb) as -> by (destruct refused; [done | by injection Hc]).
  clear Hc.
  apply bind_inv in H as [(e & H & _)|([] & wd & Hd & H)]; [done |].
  injection Hd as <-.
  apply bind_inv in H as [(e & H & _)|(ex & we & He & H)]; [done |].
  injection He as <- <-. rewrite Hmods in H. cbn [negb] in H.
  apply bind_inv in H as [(e & H & ->)|([] & wf & Hf & H)].
  2: { apply bind_ignore_Ret_inv in Hf as (w1 & _ & Hf).
       apply bind_Ret_inv in Hf as (create & w2 & _ & Hf).
       by apply bind_ignore_Ret_inv in Hf as (w3 & _ & Hf). }
  apply bind_ignore_Raise_inv in H as [H|(w1 & H1 & H)]; [done |].
  unfold LOGGER_warning in H1. rewrite log_run in H1. injection H1 as <-.
  apply bind_Raise_inv in H as [H|(create & w2 & H2 & H)].
  { assert (e = Abort) as ->
      by (unfold typer_confirm in H; cbn [answers add_logs] in H;
          destruct (answers wb); by injection H).
    apply typer_confirm_inv in H as (-> & _). split; [| by left].
    exists Abort. auto. }
  apply typer_confirm_inv in H2 as (H2 & _). cbn [files add_logs] in H2.
  rewrite <- H2. clear H2.
  apply bind_ignore_Raise_inv in H as [H|(w3 & H3 & H)].
  - destruct create; [| done].
    apply bind_ignore_Raise_inv in H as [H|(w4 & _ & H)]; [| done].
    pose proof (raises_only_mkdir_upto _ _ _ _ _ _ _ H) as He.
    unfold mkdir in H. rewrite mkdir_plain_run in H.
    split; [exists e; auto | left].
    destruct (node_at (files w2) (joinpath game_path ["Mods"]));
      [by injection H as _ <- |].
    destruct (node_at (files w2) (parent (joinpath game_path ["Mods"])))
      as [[|d]|]; [done | by injection H as _ <- ..].
  - injection H as <- <-. split; [exists Exit; auto |].
    destruct create; [| left; by injection H3 as <-].
    apply bind_ignore_Ret_inv in H3 as (w4 & H4 & H3).
    unfold LOGGER_info in H3. rewrite log_run in H3. injection H3 as <-.
    cbn [files add_logs]. unfold mkdir in H4. rewrite mkdir_plain_run in H4.
    destruct (node_at (files w2) (joinpath game_path ["Mods"])); [done |].
    destruct (node_at (files w2) (parent (joinpath game_path ["Mods"])))
      as [[|d]|]; [| done | done].
    injection H4 as <-. by right.
Qed.

Definition fresh_game : gmap path node :=
  list_to_map [ (["g"], Dir); (["g"; "a.txt"], File (txt "original")) ].

Lemma cli_without_mods_folder_witness :
  (exists e,
     (cli ["g"] None false false (World fresh_game [] INFO [] [true])).1
     = Raise e /\ (e = Exit \/ e = Abort \/ file_error e))
  /\ (files (cli ["g"] None false false (World fresh_game [] INFO [] [true])).2
      = files (World fresh_game [] INFO [] [true])
      \/ files (cli ["g"] None false false (World fresh_game [] INFO [] [true])).2
         = <[joinpath ["g"] ["Mods"] := Dir]>
             (files (World fresh_game [] INFO [] [true]))).
Proof.
  apply (cli_without_mods_folder ["g"] None false
           (World fresh_game [] INFO [] [true])).
  - reflexivity.
  - apply surjective_pairing.
Defined.
